(** * Address validation and key-manager lock discipline

    A shallow embedding of [src/utils/address-utils.js] (network registry,
    [extractAddressesFromObj], [validateAddressesByNetwork]) together with
    the [KeyManager] state machine exercised by [test/it/keymanager_tests.js],
    and the properties established about them. *)

From Stdlib Require Import ZArith Ascii.
From stdpp Require Import gmap strings list.

Set Warnings "-register-all".

(** ** JavaScript values

    The data values the functions inspect: the primitives, dense arrays and
    plain objects (own data properties, prototype [Object.prototype]).
    An array has no holes: a sparse array, whose holes [length] counts and
    [forEach] skips, is not one of these values.
    Functions are not data here, so an own property never holds a callable.
    Strings are sequences of code units below 256; every string operation
    used by the code (emptiness, first unit, equality, concatenation,
    alphabet membership) is indifferent to the unit width. *)

(** A number is NaN, an infinity or [mantissa * 10 ^ exponent]. The code
    only asks whether a number is zero, positive or below one. *)
Inductive Number : Type :=
| NaN
| Infinity (negative : bool)
| Finite (mantissa exponent : Z).

Inductive JsValue : Type :=
| JsUndefined
| JsNull
| JsBool (b : bool)
| JsNumber (n : Number)
| JsString (s : string)
| JsArray (elems : list JsValue)
| JsObject (props : gmap string JsValue).

(** What a [throw] carries: a [TypeError] raised by the language, the string
    thrown by [Base58.decode] on a character outside its alphabet, any other
    exception raised inside a library, or one of the four error kinds of the
    key manager. *)
Inductive Exn : Type :=
| TypeError
| Base58Unacceptable (c : ascii)
| LibraryError
| InvalidPassword
| InvalidAccess
| AlreadyUnlocked
| LockedError.

(** An evaluation either returns a value or throws. *)
Inductive Completion (A : Type) : Type :=
| Return (a : A)
| Throw (e : Exn).
Arguments Return {A} a.
Arguments Throw {A} e.

#[export] Instance Completion_ret : MRet Completion := fun _ a => Return a.
#[export] Instance Completion_bind : MBind Completion := fun _ _ k m =>
  match m with
  | Return a => k a
  | Throw e => Throw e
  end.

(** Calls that leave the module: the two library calls of the validation
    loop and its [console.log], and the cryptographic work of the key
    manager. *)
Inductive Event : Type :=
| Base58Decode (arg : JsValue)
| ConsoleLog (bytes : list Z)
| Blake2bHash (msg : list Z)
| DeriveKeyPair (password : string)
| SignMessage (message : string).

(** A run of effectful code: the calls it made, in order, and how it ended.
    The calls made before a [throw] stay in the trace. *)
Record Run (A : Type) : Type := MkRun {
  trace : list Event;
  outcome : Completion A
}.
Arguments MkRun {A} trace outcome.
Arguments trace {A} r.
Arguments outcome {A} r.

#[export] Instance Run_ret : MRet Run := fun _ a => MkRun [] (Return a).
#[export] Instance Run_bind : MBind Run := fun _ _ k m =>
  match outcome m with
  | Return a => MkRun (trace m ++ trace (k a)) (outcome (k a))
  | Throw e => MkRun (trace m) (Throw e)
  end.

(** A pure evaluation seen as a run without calls. *)
Definition pure {A} (c : Completion A) : Run A := MkRun [] c.

(** A call to the outside: it is recorded, then completes as the callee did. *)
Definition call {A} (ev : Event) (c : Completion A) : Run A := MkRun [ev] c.

(** The libraries and the part of the language the code relies on but does
    not define. [Base58_decode] is [Base58.decode] of the package [base-58]
    (it may throw); [blake2b_256] is
    [blake.createHash("blake2b", {digestLength:32}).update(m).end().read()];
    [ToNumber_ext] is the language's [ToNumber] on a string, an array or an
    object (on the other values it is defined below). *)
Class Runtime : Type := {
  Base58_decode : JsValue → Completion (list Z);
  blake2b_256 : list Z → list Z;
  ToNumber_ext : JsValue → Completion Number
}.

Module Js.

(** [ToBoolean]: what [if (v)], [!v] and [v && w] test. *)
Definition truthy (v : JsValue) : bool :=
  match v with
  | JsUndefined | JsNull => false
  | JsBool b => b
  | JsNumber NaN => false
  | JsNumber (Infinity _) => true
  | JsNumber (Finite m _) => negb (m =? 0)%Z
  | JsString s => negb (String.eqb s EmptyString)
  | JsArray _ | JsObject _ => true
  end.

(** [n > 0] on numbers. *)
Definition gt0 (n : Number) : bool :=
  match n with
  | NaN => false
  | Infinity negative => negb negative
  | Finite m _ => (0 <? m)%Z
  end.

(** [n < 1] on numbers. *)
Definition lt1 (n : Number) : bool :=
  match n with
  | NaN => false
  | Infinity negative => negative
  | Finite m e => if (0 <=? e)%Z then (m <=? 0)%Z else (m <? 10 ^ (- e))%Z
  end.

(** [ToNumber], as the relational operators apply it to an operand. *)
Definition ToNumber `{Runtime} (v : JsValue) : Completion Number :=
  match v with
  | JsUndefined => Return NaN
  | JsNull => Return (Finite 0 0)
  | JsBool b => Return (Finite (if b then 1 else 0) 0)
  | JsNumber n => Return n
  | JsString _ | JsArray _ | JsObject _ => ToNumber_ext v
  end.

(** The tag of [v.constructor] as far as the code compares it: with
    [Array] and with [String]. Reading it on [undefined] or [null] throws;
    an own property [constructor] of an object shadows the inherited one
    and is never one of the built-in constructors. *)
Inductive Ctor : Type := CtorArray | CtorString | CtorOther.

Definition constructor (v : JsValue) : Completion Ctor :=
  match v with
  | JsUndefined | JsNull => Throw TypeError
  | JsArray _ => Return CtorArray
  | JsString _ => Return CtorString
  | JsBool _ | JsNumber _ | JsObject _ => Return CtorOther
  end.

(** [v[k]] for a name [k] that no built-in prototype defines (the five
    field names of the parameter object). *)
Definition get (v : JsValue) (k : string) : Completion JsValue :=
  match v with
  | JsUndefined | JsNull => Throw TypeError
  | JsObject props => Return (default JsUndefined (props !! k))
  | JsBool _ | JsNumber _ | JsString _ | JsArray _ => Return JsUndefined
  end.

(** [v[0]]. *)
Definition get0 (v : JsValue) : Completion JsValue :=
  match v with
  | JsUndefined | JsNull => Throw TypeError
  | JsString (String c _) => Return (JsString (String c EmptyString))
  | JsString EmptyString => Return JsUndefined
  | JsArray elems => Return (default JsUndefined (head elems))
  | JsObject props => Return (default JsUndefined (props !! "0"))
  | JsBool _ | JsNumber _ => Return JsUndefined
  end.

(** [v.length]. *)
Definition get_length (v : JsValue) : Completion JsValue :=
  match v with
  | JsUndefined | JsNull => Throw TypeError
  | JsString s => Return (JsNumber (Finite (Z.of_nat (String.length s)) 0))
  | JsArray elems => Return (JsNumber (Finite (Z.of_nat (length elems)) 0))
  | JsObject props => Return (default JsUndefined (props !! "length"))
  | JsBool _ | JsNumber _ => Return JsUndefined
  end.

(** [v.length > 0]. *)
Definition length_gt0 `{Runtime} (v : JsValue) : Completion bool :=
  len ← get_length v; n ← ToNumber len; mret (gt0 n).

(** [v.length < 1]. *)
Definition length_lt1 `{Runtime} (v : JsValue) : Completion bool :=
  len ← get_length v; n ← ToNumber len; mret (lt1 n).

(** The elements [v.forEach(f)] visits. Only an array has a callable
    [forEach]; on any other value the call throws a [TypeError] (the
    property is missing, or holds data). *)
Definition forEach_elems (v : JsValue) : Completion (list JsValue) :=
  match v with
  | JsArray elems => Return elems
  | _ => Throw TypeError
  end.

(** [l.includes(v)] for a list [l] of strings: [SameValueZero] relates a
    string only to an equal string. *)
Definition includes (l : list string) (v : JsValue) : bool :=
  match v with
  | JsString s => bool_decide (s ∈ l)
  | _ => false
  end.

End Js.

(** [arr.forEach(body)] with the state the callback mutates threaded
    through: the callback runs on the elements in order, and a [throw]
    inside it ends the loop. *)
Fixpoint forEach {M : Type → Type} `{!MBind M, !MRet M} {S A : Type}
    (body : S → A → M S) (elems : list A) (s : S) : M S :=
  match elems with
  | [] => mret s
  | x :: rest => s' ← body s x; forEach body rest s'
  end.

(** ** Network registry ([address-utils.js], lines 18-46 and 243-260) *)

Definition validNetworks : list string :=
  ["local"; "private"; "toplnet"; "valhalla"; "hel"].

Record NetworkDefaults : Type := {
  hex : string;
  decimal : Z;
  url : string
}.

Definition networksDefaults : gmap string NetworkDefaults :=
  list_to_map [
    ("local", {| hex := "0x30"; decimal := 48; url := "http://localhost:9085/" |});
    ("private", {| hex := "0x40"; decimal := 64; url := "http://localhost:9085/" |});
    ("toplnet", {| hex := "0x01"; decimal := 1; url := "https:\torus.topl.services" |});
    ("valhalla", {| hex := "0x10"; decimal := 16; url := "https:\valhalla.torus.topl.services" |});
    ("hel", {| hex := "0x20"; decimal := 32; url := "https:\hel.torus.topl.services" |})
  ].

(** [networkPrefix && validNetworks.includes(networkPrefix)]: a falsy prefix
    is returned as it is, otherwise the boolean of [includes]. *)
Definition isValidNetwork (networkPrefix : JsValue) : JsValue :=
  if Js.truthy networkPrefix
  then JsBool (Js.includes validNetworks networkPrefix)
  else networkPrefix.

(** [networksDefaults[networkPrefix].<field>] for a network name. A name
    without an entry makes the field access throw (the names of the members
    of [Object.prototype], which no caller passes, are left aside). *)
Definition getByNetwork {A} (field : NetworkDefaults → A) (networkPrefix : string)
    : Completion A :=
  match networksDefaults !! networkPrefix with
  | Some defaults => Return (field defaults)
  | None => Throw TypeError
  end.

Definition getUrlByNetwork : string → Completion string := getByNetwork url.
Definition getHexByNetwork : string → Completion string := getByNetwork hex.
Definition getDecimalByNetwork : string → Completion Z := getByNetwork decimal.
Definition getValidNetworksList (networkPrefix : JsValue) : list string := validNetworks.

(** ** Address extraction ([address-utils.js], lines 151-206) *)

(** The pattern the function repeats for its three list-valued fields:
    [if (obj[k] && obj[k].length > 0) obj[k].forEach(a => addresses.push(item(a)))]. *)
Definition push_each `{Runtime} (obj : JsValue) (k : string)
    (item : JsValue → Completion JsValue) (addresses : list JsValue)
    : Completion (list JsValue) :=
  field ← Js.get obj k;
  if Js.truthy field then
    nonempty ← Js.length_gt0 field;
    if nonempty : bool then
      elems ← Js.forEach_elems field;
      forEach (fun addresses address => a ← item address; mret (addresses ++ [a]))
              elems addresses
    else mret addresses
  else mret addresses.

(** [if (obj[k]) addresses.push(obj[k])]. *)
Definition push_if_set (obj : JsValue) (k : string) (addresses : list JsValue)
    : Completion (list JsValue) :=
  field ← Js.get obj k;
  mret (if Js.truthy field then addresses ++ [field] else addresses).

Definition extractAddressesFromObj `{Runtime} (obj : JsValue) : Completion JsValue :=
  let addresses := [] in
  ctor ← Js.constructor obj;
  match ctor with
  | Js.CtorString => mret obj
  | _ =>
    addresses ← push_if_set obj "changeAddress" addresses;
    addresses ← push_if_set obj "consolidationAdddress" addresses;
    addresses ← push_each obj "recipients" Js.get0 addresses;
    addresses ← push_each obj "sender" Return addresses;
    addresses ← push_each obj "addresses" Return addresses;
    mret (JsArray addresses)
  end.

(** ** Validation ([address-utils.js], lines 84-149) *)

Record ValidationResult : Type := {
  success : bool;
  errorMsg : string;
  networkPrefix : JsValue;
  addresses : JsValue;
  invalidAddresses : list JsValue
}.

Definition set_errorMsg (msg : string) (r : ValidationResult) : ValidationResult :=
  {| success := success r; errorMsg := msg; networkPrefix := networkPrefix r;
     addresses := addresses r; invalidAddresses := invalidAddresses r |}.

Definition set_addresses (v : JsValue) (r : ValidationResult) : ValidationResult :=
  {| success := success r; errorMsg := errorMsg r; networkPrefix := networkPrefix r;
     addresses := v; invalidAddresses := invalidAddresses r |}.

Definition set_invalidAddresses (l : list JsValue) (r : ValidationResult) : ValidationResult :=
  {| success := success r; errorMsg := errorMsg r; networkPrefix := networkPrefix r;
     addresses := addresses r; invalidAddresses := l |}.

Definition set_success (b : bool) (r : ValidationResult) : ValidationResult :=
  {| success := b; errorMsg := errorMsg r; networkPrefix := networkPrefix r;
     addresses := addresses r; invalidAddresses := invalidAddresses r |}.

(** The callback of the validation loop (lines 118-139); [invalid] is
    [result.invalidAddresses], to which [push] appends. *)
Definition validateAddress `{Runtime} (networkDecimal : Z)
    (invalid : list JsValue) (address : JsValue) : Run (list JsValue) :=
  decodedAddress ← call (Base58Decode address) (Base58_decode address);
  _ ← call (ConsoleLog decodedAddress) (Return ());
  if negb (length decodedAddress =? 38)
     || negb (bool_decide (decodedAddress !! 0 = Some networkDecimal))
  then mret (invalid ++ [address])
  else
    let checksumBuffer := drop 34 decodedAddress in
    let msgBuffer := take 34 decodedAddress in
    digest ← call (Blake2bHash msgBuffer) (Return (blake2b_256 msgBuffer));
    let hashChecksumBuffer := take 4 digest in
    if negb (bool_decide (checksumBuffer = hashChecksumBuffer))
    then mret (invalid ++ [address])
    else mret invalid.

(** Line 109: an array is taken as it is, anything else goes through
    [extractAddressesFromObj]. *)
Definition normalizeAddresses `{Runtime} (addresses : JsValue) : Completion JsValue :=
  ctor ← Js.constructor addresses;
  match ctor with
  | Js.CtorArray => mret addresses
  | _ => extractAddressesFromObj addresses
  end.

(** Line 112: [!result.addresses || result.addresses.length < 1]. *)
Definition noAddressesFound `{Runtime} (v : JsValue) : Completion bool :=
  if negb (Js.truthy v) then mret true else Js.length_lt1 v.

(** A prefix that passes [isValidNetwork] is a string of [validNetworks]
    (lemma [isValidNetwork_truthy]); the function goes on with that string. *)
Definition validateAddressesByNetwork `{Runtime} (networkPrefix addresses : JsValue)
    : Run ValidationResult :=
  let result := {| success := false; errorMsg := EmptyString;
                   networkPrefix := networkPrefix;
                   addresses := JsArray []; invalidAddresses := [] |} in
  match Js.truthy (isValidNetwork networkPrefix), networkPrefix with
  | true, JsString name =>
    if negb (Js.truthy addresses) then
      mret (set_errorMsg "No addresses provided" result)
    else
      networkDecimal ← pure (getDecimalByNetwork name);
      normalized ← pure (normalizeAddresses addresses);
      let result := set_addresses normalized result in
      none ← pure (noAddressesFound normalized);
      if none : bool then
        mret (set_errorMsg "No addresses found" result)
      else
        elems ← pure (Js.forEach_elems normalized);
        invalid ← forEach (validateAddress networkDecimal) elems (invalidAddresses result);
        let result := set_invalidAddresses invalid result in
        if (0 <? length (invalidAddresses result))%nat then
          mret (set_errorMsg ("Invalid addresses for network: " +:+ name) result)
        else
          mret (set_success true result)
  | _, _ =>
    mret (set_errorMsg "Invalid network provided" result)
  end.

(** ** The libraries, for running the code

    Executable models of the two packages the validation calls, so that the
    functions above can be evaluated on the addresses of the source file.
    The theorems below hold for every [Runtime]; this one is used for
    their examples. *)

Module Base58.

Local Open Scope Z_scope.

Definition ALPHABET : string :=
  "123456789ABCDEFGHJKLMNPQRSTUVWXYZabcdefghijkmnopqrstuvwxyz".

Fixpoint index_from (i : Z) (c : ascii) (s : string) : option Z :=
  match s with
  | EmptyString => None
  | String d rest => if Ascii.eqb c d then Some i else index_from (i + 1) c rest
  end.

(** [ALPHABET_MAP[c]], for a single character [c]. *)
Definition ALPHABET_MAP (c : ascii) : option Z := index_from 0 c ALPHABET.

(** [while (carry) { bytes.push(carry & 0xff); carry >>= 8 }]; the fuel
    bounds the number of pushes, [Z.to_nat carry] always suffices. *)
Fixpoint push_carry (fuel : nat) (carry : Z) : list Z :=
  match fuel with
  | O => []
  | S fuel' =>
    if carry =? 0 then []
    else Z.land carry 255 :: push_carry fuel' (Z.shiftr carry 8)
  end.

(** The carry loop over [bytes] (least significant first), followed by the
    pushes of the remaining carry. *)
Fixpoint propagate (bytes : list Z) (carry : Z) : list Z :=
  match bytes with
  | [] => push_carry (Z.to_nat carry) carry
  | b :: rest =>
    let b' := b + carry in
    Z.land b' 255 :: propagate rest (Z.shiftr b' 8)
  end.

(** One round of the outer loop for a character of value [v]:
    multiply every byte by 58, add [v] to the first, propagate. *)
Definition step (bytes : list Z) (v : Z) : list Z :=
  match (Z.mul 58) <$> bytes with
  | [] => propagate [] v
  | b :: rest => propagate (b + v :: rest) 0
  end.

Fixpoint digits (s : string) (bytes : list Z) : Completion (list Z) :=
  match s with
  | EmptyString => Return bytes
  | String c rest =>
    match ALPHABET_MAP c with
    | None => Throw (Base58Unacceptable c)
    | Some v => digits rest (step bytes v)
    end
  end.

(** The zero bytes the last loop pushes: one for each leading ["1"], the
    last character of the string excepted. *)
Fixpoint leading_ones (s : string) : nat :=
  match s with
  | String "1"%char (String _ _ as rest) => S (leading_ones rest)
  | _ => O
  end.

(** [Base58.decode(string)]. *)
Definition decode (s : string) : Completion (list Z) :=
  match s with
  | EmptyString => Return []
  | _ =>
    bytes ← digits s [0];
    mret (reverse (bytes ++ replicate (leading_ones s) 0))
  end.

(** A base58 string: every character is in the alphabet. *)
Fixpoint is_base58 (s : string) : bool :=
  match s with
  | EmptyString => true
  | String c rest => bool_decide (is_Some (ALPHABET_MAP c)) && is_base58 rest
  end.

End Base58.

Module Blake2b.

Local Open Scope Z_scope.

Definition mask64 : Z := 2 ^ 64 - 1.

Definition add64 (a b : Z) : Z := Z.land (a + b) mask64.

Definition rotr64 (x : Z) (n : Z) : Z :=
  Z.land (Z.lor (Z.shiftr x n) (Z.shiftl x (64 - n))) mask64.

Definition IV : list Z := [
  0x6a09e667f3bcc908; 0xbb67ae8584caa73b; 0x3c6ef372fe94f82b; 0xa54ff53a5f1d36f1;
  0x510e527fade682d1; 0x9b05688c2b3e6c1f; 0x1f83d9abfb41bd6b; 0x5be0cd19137e2179 ].

Definition SIGMA : list (list nat) := [
  [0; 1; 2; 3; 4; 5; 6; 7; 8; 9; 10; 11; 12; 13; 14; 15];
  [14; 10; 4; 8; 9; 15; 13; 6; 1; 12; 0; 2; 11; 7; 5; 3];
  [11; 8; 12; 0; 5; 2; 15; 13; 10; 14; 3; 6; 7; 1; 9; 4];
  [7; 9; 3; 1; 13; 12; 11; 14; 2; 6; 5; 10; 4; 0; 15; 8];
  [9; 0; 5; 7; 2; 4; 10; 15; 14; 1; 11; 12; 6; 8; 3; 13];
  [2; 12; 6; 10; 0; 11; 8; 3; 4; 13; 7; 5; 15; 14; 1; 9];
  [12; 5; 1; 15; 14; 13; 4; 10; 0; 7; 6; 3; 9; 2; 8; 11];
  [13; 11; 7; 14; 12; 1; 3; 9; 5; 0; 15; 4; 8; 6; 2; 10];
  [6; 15; 14; 9; 11; 3; 0; 8; 12; 2; 13; 7; 1; 4; 10; 5];
  [10; 2; 8; 4; 7; 6; 1; 5; 15; 11; 9; 14; 3; 12; 13; 0] ]%nat.

Definition word (v : list Z) (i : nat) : Z := default 0 (v !! i).

(** The mixing function G of RFC 7693, section 3.1. *)
Definition G (a b c d : nat) (x y : Z) (v : list Z) : list Z :=
  let v := <[a := add64 (add64 (word v a) (word v b)) x]> v in
  let v := <[d := rotr64 (Z.lxor (word v d) (word v a)) 32]> v in
  let v := <[c := add64 (word v c) (word v d)]> v in
  let v := <[b := rotr64 (Z.lxor (word v b) (word v c)) 24]> v in
  let v := <[a := add64 (add64 (word v a) (word v b)) y]> v in
  let v := <[d := rotr64 (Z.lxor (word v d) (word v a)) 16]> v in
  let v := <[c := add64 (word v c) (word v d)]> v in
  <[b := rotr64 (Z.lxor (word v b) (word v c)) 63]> v.

Definition round (m : list Z) (s : list nat) (v : list Z) : list Z :=
  let x (i : nat) := word m (default O (s !! i)) in
  let v := G 0 4 8 12 (x 0%nat) (x 1%nat) v in
  let v := G 1 5 9 13 (x 2%nat) (x 3%nat) v in
  let v := G 2 6 10 14 (x 4%nat) (x 5%nat) v in
  let v := G 3 7 11 15 (x 6%nat) (x 7%nat) v in
  let v := G 0 5 10 15 (x 8%nat) (x 9%nat) v in
  let v := G 1 6 11 12 (x 10%nat) (x 11%nat) v in
  let v := G 2 7 8 13 (x 12%nat) (x 13%nat) v in
  G 3 4 9 14 (x 14%nat) (x 15%nat) v.

(** The compression function F: twelve rounds, the schedule repeating
    after the tenth. *)
Definition F (h m : list Z) (t : Z) (final : bool) : list Z :=
  let v := h ++ IV in
  let v := <[12%nat := Z.lxor (word v 12) (Z.land t mask64)]> v in
  let v := <[13%nat := Z.lxor (word v 13) (Z.shiftr t 64)]> v in
  let v := if final then <[14%nat := Z.lxor (word v 14) mask64]> v else v in
  let v := foldl (fun v s => round m s v) v (SIGMA ++ take 2 SIGMA) in
  zip_with Z.lxor h (zip_with Z.lxor (take 8 v) (drop 8 v)).

(** Little-endian bytes to a 64-bit word and back. *)
Definition le_word (bytes : list Z) : Z :=
  foldr (fun b acc => b + 256 * acc) 0 bytes.

Fixpoint le_bytes (n : nat) (w : Z) : list Z :=
  match n with
  | O => []
  | S n' => Z.land w 255 :: le_bytes n' (Z.shiftr w 8)
  end.

Fixpoint chunks (fuel : nat) (size : nat) (l : list Z) : list (list Z) :=
  match fuel with
  | O => []
  | S fuel' =>
    match l with
    | [] => []
    | _ => take size l :: chunks fuel' size (drop size l)
    end
  end.

(** The sixteen message words of a block, padded with zero bytes. *)
Definition block_words (block : list Z) : list Z :=
  le_word <$> chunks 16 8 (block ++ replicate (128 - length block) 0).

(** All blocks but the last, [t] counting the bytes fed so far. *)
Fixpoint absorb (fuel : nat) (h : list Z) (t : Z) (data : list Z) : list Z :=
  match fuel with
  | O => h
  | S fuel' =>
    if (length data <=? 128)%nat
    then F h (block_words data) (t + Z.of_nat (length data)) true
    else absorb fuel' (F h (block_words (take 128 data)) (t + 128) false)
                (t + 128) (drop 128 data)
  end.

(** Unkeyed BLAKE2b with a digest of [nn] bytes. *)
Definition hash (nn : nat) (data : list Z) : list Z :=
  let h := <[0%nat := Z.lxor (word IV 0) (Z.lxor 0x01010000 (Z.of_nat nn))]> IV in
  let h := absorb (S (length data)) h 0 data in
  take nn (h ≫= le_bytes 8).

End Blake2b.

(** The runtime of the examples. They decode strings only and hold no object
    with an own [length], so the other arguments of [Base58.decode] and the
    coercion of such a [length] are not modelled: both hooks throw there. *)
Definition node : Runtime := {|
  Base58_decode v :=
    match v with
    | JsString s => Base58.decode s
    | _ => Throw LibraryError
    end;
  blake2b_256 := Blake2b.hash 32;
  ToNumber_ext _ := Throw LibraryError
|}.

(** The sample data of the source file (lines 209-233). *)
Definition arrExample : list JsValue :=
  replicate 5 (JsString "86tS2ExvjGEpS3Ntq5vZgHirUMuee7pJELGD8GmBoUyjXpAaAXTz").

Definition arrSingle : list JsValue :=
  [JsString "AUAftQsaga8DjVfVvq7DK14fm5HvGEDdVLZwexZZvoP7oWkWCLoE"].

Definition paramObj : gmap string JsValue :=
  list_to_map [
    ("propositionType", JsString "PublicKeyCurve25519");
    ("changeAddress", JsString "86tS2ExvjGEpS3Ntq5vZgHirUMuee7pJELGD8GmBoUyjXpAaAXTz");
    ("consolidationAdddress", JsString "86tS2ExvjGEpS3Ntq5vZgHirUMuee7pJELGD8GmBoUyjXpAaAXTz");
    ("recipients", JsArray [JsArray [
       JsString "86tS2ExvjGEpS3Ntq5vZgHirUMuee7pJELGD8GmBoUyjXpAaAXTz";
       JsNumber (Finite 10 0)]]);
    ("sender", JsArray [JsString "86tS2ExvjGEpS3Ntq5vZgHirUMuee7pJELGD8GmBoUyjXpAaAXTz"]);
    ("addresses", JsArray [JsString "86tS2ExvjGEpS3Ntq5vZgHirUMuee7pJELGD8GmBoUyjXpAaAXTz"]);
    ("fee", JsNumber (Finite 1 0));
    ("data", JsString EmptyString)
  ].

(** The address of [arrSingle] with the last byte of its checksum changed
    from 205 to 206, encoded again. *)
Definition arrSingle_corrupted : JsValue :=
  JsString "AUAftQsaga8DjVfVvq7DK14fm5HvGEDdVLZwexZZvoP7oWkWCLoF".

(** ** KeyManager

    [src/modules/KeyManager.js] is not among the sources; its tests
    ([test/it/keymanager_tests.js]) are. The cryptography it calls (key
    derivation, signing) is a parameter. *)

Class Crypto : Type := {
  KeyPair : Type;
  deriveKeyPair : string → KeyPair;
  derivePublicKeyId : KeyPair → string;
  signWith : KeyPair → string → list Z
}.

Module KeyManager.

(** Modelled from the spec: the state of a KeyManager (section 3 of the
    specification); [src/modules/KeyManager.js] is missing. *)
Record t `{Crypto} : Type := {
  password : string;
  keyPair : KeyPair;
  publicKeyId : string;
  isLocked : bool
}.

(** Modelled from the spec: the password a construction argument carries,
    "either a non-empty string password or a configuration object with a
    string-valued [password] field"; any other shape carries none. The
    constructor of [src/modules/KeyManager.js] is missing. *)
Definition password_of (arg : JsValue) : option string :=
  match arg with
  | JsString s => if String.eqb s EmptyString then None else Some s
  | JsObject props =>
    match props !! "password" with
    | Some (JsString p) => Some p
    | _ => None
    end
  | _ => None
  end.

(** Modelled from the spec: construction (section 4.1). A bad argument
    fails with [InvalidPassword] before any cryptographic work; otherwise
    the key pair is derived and the manager starts unlocked. The
    constructor of [src/modules/KeyManager.js] is missing. *)
Definition new `{Crypto} (arg : JsValue) : Run t :=
  match password_of arg with
  | None => pure (Throw InvalidPassword)
  | Some pw =>
    kp ← call (DeriveKeyPair pw) (Return (deriveKeyPair pw));
    mret {| password := pw; keyPair := kp;
            publicKeyId := derivePublicKeyId kp; isLocked := false |}
  end.

Definition set_lock `{Crypto} (locked : bool) (km : t) : t :=
  {| password := password km; keyPair := keyPair km;
     publicKeyId := publicKeyId km; isLocked := locked |}.

(** Modelled from the spec: [lockKey()] moves to [Locked] unconditionally.
    A method returns the manager it leaves behind and its completion.
    [lockKey] of [src/modules/KeyManager.js] is missing. *)
Definition lockKey `{Crypto} (km : t) : t * Completion () :=
  (set_lock true km, Return ()).

(** Modelled from the spec: [unlockKey(password)] fails with
    [AlreadyUnlocked] on an unlocked manager; on a locked one it compares
    the argument with the construction password, unlocks on a match and
    fails with [InvalidPassword] otherwise; a failure changes nothing.
    [unlockKey] of [src/modules/KeyManager.js] is missing. *)
Definition unlockKey `{Crypto} (km : t) (arg : JsValue) : t * Completion () :=
  if isLocked km then
    match arg with
    | JsString s =>
      if String.eqb s (password km)
      then (set_lock false km, Return ())
      else (km, Throw InvalidPassword)
    | _ => (km, Throw InvalidPassword)
    end
  else (km, Throw AlreadyUnlocked).

(** Modelled from the spec: an assignment to [isLocked] from outside fails
    with [InvalidAccess]. The setter of [src/modules/KeyManager.js] is
    missing. *)
Definition assign_isLocked `{Crypto} (km : t) (v : JsValue) : t * Completion () :=
  (km, Throw InvalidAccess).

(** Modelled from the spec: [sign(message)] "requires [Unlocked] AND
    [message] is a non-empty string"; anything else raises the same
    [LockedError]. The state check and the argument check are separate
    guards. [sign] of [src/modules/KeyManager.js] is missing. *)
Definition sign `{Crypto} (km : t) (message : JsValue) : Run (list Z) :=
  if isLocked km then pure (Throw LockedError)
  else
    match message with
    | JsString m =>
      if String.eqb m EmptyString then pure (Throw LockedError)
      else call (SignMessage m) (Return (signWith (keyPair km) m))
    | _ => pure (Throw LockedError)
    end.

(** A stand-in for the cryptography, to run the state machine on the
    inputs of the tests: the key pair is the password itself and a
    signature is sixty-four zero bytes. *)
Definition stub_crypto : Crypto := {|
  KeyPair := string;
  deriveKeyPair pw := pw;
  derivePublicKeyId kp := kp;
  signWith _ _ := replicate 64 0%Z
|}.

(** The arguments of the constructor tests (lines 41-52 of the test file). *)
Definition invalid_passwords : list JsValue := [
  JsNumber (Finite 123 0);
  JsArray [];
  JsObject ∅;
  JsNumber (Finite 512 (-2));
  JsArray [JsArray []];
  JsUndefined;
  JsObject {["password" := JsNumber (Finite 123 0)]};
  JsObject {["password" := JsArray []]};
  JsObject {["password" := JsUndefined]};
  JsObject {["invalidPasswordKey" := JsString "invalidKey"]}
].

(** The manager the tests share, [new KeyManager('password_test')], after
    [lockKey()]. *)
Definition keyMan_locked : @t stub_crypto :=
  {| password := "password_test"; keyPair := "password_test" : @KeyPair stub_crypto;
     publicKeyId := "password_test"; isLocked := true |}.

End KeyManager.

(** ** Vocabulary of the statements *)

(** The three defects of a decoded address, in the words of the
    specification: wrong length, wrong network tag, or a trailing checksum
    that is not the first four bytes of the hash of bytes 0-33. *)
Definition InvalidAddress `{Runtime} (tag : Z) (bytes : list Z) : Prop :=
  length bytes ≠ 38
  ∨ bytes !! 0 ≠ Some tag
  ∨ drop 34 bytes ≠ take 4 (blake2b_256 (take 34 bytes)).

(** The same three tests as the loop body evaluates them. *)
Definition fails_checks `{Runtime} (tag : Z) (bytes : list Z) : bool :=
  negb (length bytes =? 38)
  || negb (bool_decide (bytes !! 0 = Some tag))
  || negb (bool_decide (drop 34 bytes = take 4 (blake2b_256 (take 34 bytes)))).

(** The value is an address in the sense of the specification, a base58
    string: [Base58.decode] returns on it. *)
Definition decodes `{Runtime} (address : JsValue) : Prop :=
  ∃ bytes, Base58_decode address = Return bytes.

(** The verdict of the loop body on an address. *)
Definition rejected `{Runtime} (tag : Z) (address : JsValue) : bool :=
  match Base58_decode address with
  | Return bytes => fails_checks tag bytes
  | Throw _ => false
  end.

(** What a set, truthy scalar field contributes to the extracted list. *)
Definition scalar_field (props : gmap string JsValue) (k : string) : list JsValue :=
  match props !! k with
  | Some v => if Js.truthy v then [v] else []
  | None => []
  end.

(** The field [k] is an array with the elements [l], or is absent ([l]
    empty). *)
Definition list_field (props : gmap string JsValue) (k : string) (l : list JsValue) : Prop :=
  props !! k = Some (JsArray l) ∨ (props !! k = None ∧ l = []).

(** A recipient entry [[address, amount]]. *)
Definition recipient (entry : JsValue * JsValue) : JsValue :=
  JsArray [entry.1; entry.2].

(** The result the function returns before it looks at any address. *)
Definition rejection (networkPrefix : JsValue) (msg : string) : ValidationResult :=
  {| success := false; errorMsg := msg; networkPrefix := networkPrefix;
     addresses := JsArray []; invalidAddresses := [] |}.

(** The result of a completed validation loop over [l] that rejected [inv]. *)
Definition verdict (name : string) (l inv : list JsValue) : ValidationResult :=
  match inv with
  | [] =>
    {| success := true; errorMsg := EmptyString; networkPrefix := JsString name;
       addresses := JsArray l; invalidAddresses := [] |}
  | _ =>
    {| success := false; errorMsg := "Invalid addresses for network: " +:+ name;
       networkPrefix := JsString name; addresses := JsArray l;
       invalidAddresses := inv |}
  end.

(** ** The rest of [address-utils.js] *)

(** What [str2buf] returns: its argument as it is, or a buffer. *)
Inductive BufOrValue : Type :=
| Unchanged (v : JsValue)
| Buffer (bytes : list Z).

(** [str2buf] (lines 48-51). [Buffer_from] is Node's
    [Buffer.from(string, encoding)], which the function calls when an
    encoding is given; without one the string is decoded as base58. *)
Definition str2buf `{Runtime} (Buffer_from : string → JsValue → Completion (list Z))
    (str enc : JsValue) : Completion BufOrValue :=
  if negb (Js.truthy str) then mret (Unchanged str)
  else
    ctor ← Js.constructor str;
    match ctor, str with
    | Js.CtorString, JsString s =>
      if Js.truthy enc
      then bytes ← Buffer_from s enc; mret (Buffer bytes)
      else bytes ← Base58_decode str; mret (Buffer bytes)
    | _, _ => mret (Unchanged str)
    end.

(** Line 178: the five field names [extractAddressesFromObj] reads. *)
Definition keys : list string :=
  ["recipients"; "sender"; "changeAddress"; "consolidationAdddress"; "addresses"].

(** The calls the loop body makes on one address: the decoding, then, if
    the decoder returned, the log of the bytes, and the hash of the first
    34 bytes only when the length and the tag were right. *)
Definition address_events `{Runtime} (tag : Z) (address : JsValue) : list Event :=
  Base58Decode address ::
  match Base58_decode address with
  | Return bytes =>
    ConsoleLog bytes ::
    (if (length bytes =? 38) && bool_decide (bytes !! 0 = Some tag)
     then [Blake2bHash (take 34 bytes)]
     else [])
  | Throw _ => []
  end.

(** A decoded address that passes the three tests. *)
Definition WellFormed `{Runtime} (tag : Z) (bytes : list Z) : Prop :=
  length bytes = 38
  ∧ bytes !! 0 = Some tag
  ∧ drop 34 bytes = take 4 (blake2b_256 (take 34 bytes)).

(** The three messages of the results returned before the loop. *)
Definition early_messages : list string :=
  ["Invalid network provided"; "No addresses provided"; "No addresses found"].

(** [s[0]]: the first unit of a string as a string, [undefined] on the
    empty string. *)
Definition first_unit (s : string) : JsValue :=
  match s with
  | EmptyString => JsUndefined
  | String c _ => JsString (String c EmptyString)
  end.

(** Two lower-case hexadecimal digits of a byte. *)
Definition hex_digit (n : Z) : ascii :=
  default "0"%char (String.get (Z.to_nat n) "0123456789abcdef").

Definition hex_byte (n : Z) : string :=
  String (hex_digit (n / 16)) (String (hex_digit (n mod 16)) EmptyString).

(** * Properties *)

(** ** The monads *)

Lemma run_bind_outcome {A B} (m : Run A) (k : A → Run B) :
  outcome (m ≫= k) =
  match outcome m with
  | Return a => outcome (k a)
  | Throw e => Throw e
  end.
Proof. unfold mbind, Run_bind. by destruct (outcome m). Qed.

Lemma run_bind_trace {A B} (m : Run A) (k : A → Run B) :
  trace (m ≫= k) =
  match outcome m with
  | Return a => trace m ++ trace (k a)
  | Throw _ => trace m
  end.
Proof. unfold mbind, Run_bind. by destruct (outcome m). Qed.

Lemma run_bind_pure_return {A B} (a : A) (k : A → Run B) :
  pure (Return a) ≫= k = k a.
Proof. unfold mbind, Run_bind, pure. simpl. by destruct (k a). Qed.

Lemma completion_bind_return {A B} (a : A) (k : A → Completion B) :
  Return a ≫= k = k a.
Proof. reflexivity. Qed.

Lemma run_bind_pure_throw {A B} (e : Exn) (k : A → Run B) :
  pure (Throw e) ≫= k = pure (Throw e).
Proof. reflexivity. Qed.

(** ** The network registry *)

Lemma isValidNetwork_truthy (v : JsValue) :
  Js.truthy (isValidNetwork v) = true ↔ ∃ name, v = JsString name ∧ name ∈ validNetworks.
Proof.
  unfold isValidNetwork. destruct (Js.truthy v) eqn:Hv.
  - destruct v; simpl;
      try (split; [done | intros (name & Heq & _); discriminate Heq]).
    rewrite bool_decide_eq_true. split.
    + intros Hin. eauto.
    + intros (name & Heq & Hin). by injection Heq as ->.
  - rewrite Hv. split; [done |]. intros (name & -> & Hin). simpl in Hv.
    apply negb_false_iff, String.eqb_eq in Hv as ->.
    revert Hin. apply (bool_decide_unpack _). vm_compute. exact I.
Qed.

Lemma isValidNetwork_name (name : string) :
  name ∈ validNetworks → Js.truthy (isValidNetwork (JsString name)) = true.
Proof. intros. apply isValidNetwork_truthy. eauto. Qed.

Lemma getDecimalByNetwork_valid (name : string) :
  name ∈ validNetworks → ∃ tag, getDecimalByNetwork name = Return tag.
Proof.
  unfold validNetworks. rewrite !elem_of_cons, elem_of_nil.
  intros [->|[->|[->|[->|[->|[]]]]]]; eexists; vm_compute; reflexivity.
Qed.

(** ** The validation loop *)

Section Validation.
Context {rt : Runtime}.

Lemma fails_checks_spec (tag : Z) (bytes : list Z) :
  fails_checks tag bytes = true ↔ InvalidAddress tag bytes.
Proof.
  unfold fails_checks, InvalidAddress.
  rewrite !orb_true_iff, !negb_true_iff, !bool_decide_eq_false, Nat.eqb_neq.
  tauto.
Qed.

Lemma validateAddress_outcome (tag : Z) (inv : list JsValue) (a : JsValue) (bytes : list Z) :
  Base58_decode a = Return bytes →
  outcome (validateAddress tag inv a) =
  Return (if fails_checks tag bytes then inv ++ [a] else inv).
Proof.
  intros Hdec. unfold validateAddress, fails_checks.
  rewrite !run_bind_outcome. simpl. rewrite Hdec.
  destruct (negb (length bytes =? 38) || negb (bool_decide (bytes !! 0 = Some tag)));
    simpl; [done |].
  by destruct (negb (bool_decide (drop 34 bytes = take 4 (blake2b_256 (take 34 bytes))))).
Qed.

Lemma validateAddress_throws (tag : Z) (inv : list JsValue) (a : JsValue) (e : Exn) :
  Base58_decode a = Throw e →
  validateAddress tag inv a = MkRun [Base58Decode a] (Throw e).
Proof.
  intros Hdec. unfold validateAddress, call, mbind, Run_bind. simpl. by rewrite Hdec.
Qed.

Lemma rejected_decoded (tag : Z) (a : JsValue) (bytes : list Z) :
  Base58_decode a = Return bytes → rejected tag a = fails_checks tag bytes.
Proof. intros Hdec. unfold rejected. by rewrite Hdec. Qed.

(** The loop returns when every address decodes, and then it has appended
    exactly the rejected addresses, in order. *)
Lemma forEach_validate_outcome (tag : Z) (l inv : list JsValue) :
  (∀ a, a ∈ l → decodes a) →
  outcome (forEach (validateAddress tag) l inv) =
  Return (inv ++ filter (λ a, rejected tag a = true) l).
Proof.
  revert inv. induction l as [|a l IH]; intros inv Hall; simpl.
  - by rewrite app_nil_r.
  - destruct (Hall a) as [bytes Hdec]; [by left |].
    rewrite run_bind_outcome, (validateAddress_outcome _ _ _ _ Hdec).
    rewrite IH by (intros; apply Hall; by right).
    pose proof (rejected_decoded tag _ _ Hdec) as Hrej.
    destruct (fails_checks tag bytes).
    + rewrite filter_cons_True by done. by rewrite <- app_assoc.
    + rewrite filter_cons_False; [done | by rewrite Hrej].
Qed.

(** The first address that does not decode ends the call with the
    decoder's exception. *)
Lemma forEach_validate_throws (tag : Z) (l1 l2 inv : list JsValue) (a : JsValue) (e : Exn) :
  (∀ b, b ∈ l1 → decodes b) →
  Base58_decode a = Throw e →
  outcome (forEach (validateAddress tag) (l1 ++ a :: l2) inv) = Throw e.
Proof.
  revert inv. induction l1 as [|b l1 IH]; intros inv Hall Hdec; simpl.
  - by rewrite run_bind_outcome, (validateAddress_throws _ _ _ _ Hdec).
  - destruct (Hall b) as [bytes Hb]; [by left |].
    rewrite run_bind_outcome, (validateAddress_outcome _ _ _ _ Hb).
    apply IH; [intros; apply Hall; by right | done].
Qed.

Lemma noAddressesFound_array (l : list JsValue) :
  noAddressesFound (JsArray l) = Return (bool_decide (l = [])).
Proof. by destruct l. Qed.

(** An argument that normalizes to a non-empty array passes the guard of
    line 100. *)
Lemma normalized_truthy (addresses : JsValue) (l : list JsValue) :
  normalizeAddresses addresses = Return (JsArray l) → l ≠ [] →
  Js.truthy addresses = true.
Proof.
  intros Hnorm Hne. destruct addresses; try done; vm_compute in Hnorm; congruence.
Qed.

(** The whole call on an argument that normalizes to the non-empty list
    [l] of decodable addresses. *)
Lemma validate_normalized (name : string) (addresses : JsValue) (l : list JsValue) :
  name ∈ validNetworks →
  normalizeAddresses addresses = Return (JsArray l) → l ≠ [] →
  (∀ a, a ∈ l → decodes a) →
  ∃ tag, getDecimalByNetwork name = Return tag ∧
    outcome (validateAddressesByNetwork (JsString name) addresses) =
    Return (verdict name l (filter (λ a, rejected tag a = true) l)).
Proof.
  intros Hname Hnorm Hne Hall.
  destruct (getDecimalByNetwork_valid name Hname) as [tag Htag].
  exists tag. split; [done |].
  unfold validateAddressesByNetwork.
  rewrite (isValidNetwork_name name Hname), (normalized_truthy _ _ Hnorm Hne).
  simpl negb. cbv iota. rewrite Htag, Hnorm, !run_bind_pure_return.
  rewrite noAddressesFound_array, bool_decide_eq_false_2 by done.
  rewrite run_bind_pure_return. simpl Js.forEach_elems.
  rewrite run_bind_pure_return, run_bind_outcome.
  simpl invalidAddresses at 1.
  rewrite (forEach_validate_outcome tag l [] Hall). simpl.
  by destruct (filter _ l).
Qed.

End Validation.

(** ** Claims about [validateAddressesByNetwork] *)

Section Claims.
Context {rt : Runtime}.

(** An argument that normalizes to the empty list is turned away before
    the loop, with nothing rejected. *)
Lemma validate_normalized_empty (name : string) (arg : JsValue) :
  name ∈ validNetworks →
  normalizeAddresses arg = Return (JsArray []) →
  ∃ r, outcome (validateAddressesByNetwork (JsString name) arg) = Return r ∧
    addresses r = JsArray [] ∧ invalidAddresses r = [] ∧ success r = false.
Proof.
  intros Hname Hnorm.
  destruct (getDecimalByNetwork_valid name Hname) as [tag Htag].
  unfold validateAddressesByNetwork. rewrite (isValidNetwork_name name Hname).
  destruct (Js.truthy arg); simpl negb; cbv iota.
  - rewrite Htag, Hnorm, !run_bind_pure_return. rewrite noAddressesFound_array.
    rewrite bool_decide_eq_true_2 by done. rewrite run_bind_pure_return.
    eexists. split; [reflexivity | done].
  - eexists. split; [reflexivity | done].
Qed.

(** An element that is no base58 string ends the call with the decoder's
    exception: no result is returned. *)
Lemma validate_undecodable (name : string) (l1 l2 : list JsValue) (a : JsValue) (e : Exn) :
  name ∈ validNetworks →
  (∀ b, b ∈ l1 → decodes b) →
  Base58_decode a = Throw e →
  outcome (validateAddressesByNetwork (JsString name) (JsArray (l1 ++ a :: l2))) = Throw e.
Proof.
  intros Hname Hall Hdec.
  destruct (getDecimalByNetwork_valid name Hname) as [tag Htag].
  unfold validateAddressesByNetwork. rewrite (isValidNetwork_name name Hname).
  simpl Js.truthy. simpl negb. cbv iota.
  rewrite Htag, !run_bind_pure_return.
  change (normalizeAddresses (JsArray (l1 ++ a :: l2))) with (Return (JsArray (l1 ++ a :: l2))).
  rewrite run_bind_pure_return, noAddressesFound_array.
  rewrite bool_decide_eq_false_2 by (by destruct l1).
  rewrite run_bind_pure_return. simpl Js.forEach_elems.
  rewrite run_bind_pure_return, run_bind_outcome.
  simpl invalidAddresses at 1.
  by rewrite (forEach_validate_throws tag l1 l2 [] a e Hall Hdec).
Qed.

(** Passing an array and passing an object that normalizes to it are the
    same call. *)
Lemma validate_as_array (prefix arg : JsValue) (l : list JsValue) :
  normalizeAddresses arg = Return (JsArray l) → Js.truthy arg = true →
  validateAddressesByNetwork prefix arg = validateAddressesByNetwork prefix (JsArray l).
Proof.
  intros Hnorm Htruthy. unfold validateAddressesByNetwork.
  rewrite Htruthy, Hnorm. reflexivity.
Qed.

(** The shape of every returned result: one of the three early rejections,
    or the verdict of a completed loop. *)
Lemma validate_returns (prefix arg : JsValue) (r : ValidationResult) :
  outcome (validateAddressesByNetwork prefix arg) = Return r →
  (success r = false ∧ invalidAddresses r = [] ∧
     errorMsg r ∈ ["Invalid network provided"; "No addresses provided"; "No addresses found"])
  ∨ ∃ name l inv, prefix = JsString name ∧ r = verdict name l inv.
Proof.
  unfold validateAddressesByNetwork.
  destruct (Js.truthy (isValidNetwork prefix)); [destruct prefix as [| | | |name| |] |];
    try (intros [= <-]; left; simpl; set_solver).
  destruct (Js.truthy arg); simpl negb; cbv iota;
    [| intros [= <-]; left; simpl; set_solver].
  destruct (getDecimalByNetwork name) as [tag|]; [| done].
  destruct (normalizeAddresses arg) as [normalized|]; [| done].
  rewrite !run_bind_pure_return.
  destruct (noAddressesFound normalized) as [[]|]; [| | done];
    rewrite run_bind_pure_return; [intros [= <-]; left; simpl; set_solver |].
  destruct normalized as [| | | | |l|]; try done.
  simpl Js.forEach_elems. rewrite run_bind_pure_return, run_bind_outcome.
  destruct (outcome (forEach _ _ _)) as [inv|]; [| done].
  intros Hr. right. exists name, l, inv. split; [done |].
  destruct inv; simpl in Hr; by injection Hr as <-.
Qed.

(** C1. For a recognised network and an argument that normalizes to the
    list [l], every address of which decodes, the call returns a result
    whose [addresses] field is the whole list [l], and an address of [l] is
    in [invalidAddresses] exactly when its decoding has a length other than
    38, or a first byte other than the network's tag, or a trailing
    checksum other than the first four bytes of the hash of bytes 0-33. *)
Theorem invalid_iff_defective (name : string) (arg : JsValue) (l : list JsValue) :
  name ∈ validNetworks →
  normalizeAddresses arg = Return (JsArray l) →
  (∀ a, a ∈ l → decodes a) →
  ∃ tag r,
    getDecimalByNetwork name = Return tag ∧
    outcome (validateAddressesByNetwork (JsString name) arg) = Return r ∧
    addresses r = JsArray l ∧
    ∀ a bytes, a ∈ l → Base58_decode a = Return bytes →
      (a ∈ invalidAddresses r ↔ InvalidAddress tag bytes).
Proof.
  intros Hname Hnorm Hall. destruct l as [|a0 l].
  - destruct (getDecimalByNetwork_valid name Hname) as [tag Htag].
    destruct (validate_normalized_empty name arg Hname Hnorm) as (r & Hr & Ha & _).
    exists tag, r. split; [done |]. split; [done |]. split; [done |].
    intros a bytes Hin. by apply elem_of_nil in Hin.
  - destruct (validate_normalized name arg (a0 :: l) Hname Hnorm) as (tag & Htag & Hr);
      [done | done |].
    exists tag, (verdict name (a0 :: l) (filter (λ a, rejected tag a = true) (a0 :: l))).
    split; [done |]. split; [done |]. split.
    + by destruct (filter _ _).
    + intros a bytes Hin Hdec.
      rewrite <- fails_checks_spec, <- (rejected_decoded tag a bytes Hdec).
      transitivity (a ∈ filter (λ a, rejected tag a = true) (a0 :: l)).
      * by destruct (filter _ _).
      * rewrite list_elem_of_filter. tauto.
Qed.


(** C3. Take an address that validates on its own against a recognised
    network, replace one byte of its checksum (positions 34-37) by a
    different value, and let [corrupted] be an address that decodes to the
    result. Any call on a list of decodable addresses that holds
    [corrupted] puts it in [invalidAddresses] and returns
    [success = false]. *)
Theorem checksum_corruption_detected (name : string) (address corrupted : JsValue)
    (bytes : list Z) (i : nat) (x : Z) (l : list JsValue) :
  name ∈ validNetworks →
  Base58_decode address = Return bytes →
  (∃ r0, outcome (validateAddressesByNetwork (JsString name) (JsArray [address])) = Return r0
         ∧ success r0 = true) →
  34 ≤ i < 38 → bytes !! i ≠ Some x →
  Base58_decode corrupted = Return (<[i := x]> bytes) →
  corrupted ∈ l → (∀ a, a ∈ l → decodes a) →
  ∃ r,
    outcome (validateAddressesByNetwork (JsString name) (JsArray l)) = Return r ∧
    corrupted ∈ invalidAddresses r ∧ success r = false.
Proof.
  intros Hname Hdec (r0 & Hr0 & Hok) Hi Hx Hdec' Hin Hall.
  assert (l ≠ []) as Hne by (intros ->; by apply elem_of_nil in Hin).
  destruct (validate_normalized name (JsArray [address]) [address] Hname) as (tag & Htag & Hr);
    [done | done | by intros a ->%list_elem_of_singleton; exists bytes |].
  destruct (validate_normalized name (JsArray l) l Hname) as (tag' & Htag' & Hr');
    [done | done | done |].
  assert (tag' = tag) as -> by congruence.
  (* the original address passes the three tests *)
  assert (fails_checks tag bytes = false) as Hgood.
  { rewrite Hr in Hr0. injection Hr0 as <-. rewrite filter_cons in Hok.
    rewrite (rejected_decoded tag _ _ Hdec) in Hok.
    destruct (fails_checks tag bytes); [| done].
    by rewrite decide_True in Hok by done. }
  unfold fails_checks in Hgood.
  apply orb_false_iff in Hgood as [[Hlen Htag0]%orb_false_iff Hsum].
  apply negb_false_iff, Nat.eqb_eq in Hlen.
  apply negb_false_iff, bool_decide_eq_true in Htag0, Hsum.
  (* the corrupted one keeps length, tag and hashed part, and loses the checksum *)
  assert (rejected tag corrupted = true) as Hrej.
  { rewrite (rejected_decoded tag _ _ Hdec'). apply fails_checks_spec.
    right. right. rewrite take_insert_ge by lia. rewrite <- Hsum.
    intros Heq. apply Hx.
    assert (drop 34 (<[i:=x]> bytes) !! (i - 34) = Some x) as Hlook.
    { rewrite lookup_drop. replace (34 + (i - 34)) with i by lia.
      apply list_lookup_insert_eq. lia. }
    rewrite Heq, lookup_drop in Hlook. by replace (34 + (i - 34)) with i in Hlook by lia. }
  exists (verdict name l (filter (λ a, rejected tag a = true) l)). split; [done |].
  assert (corrupted ∈ filter (λ a, rejected tag a = true) l) as Hmem
    by (by apply list_elem_of_filter).
  destruct (filter _ l); [by apply elem_of_nil in Hmem | done].
Qed.

(** C5. For a prefix outside the recognised set, whatever the addresses
    argument, the call returns at once: [success = false], the message
    [Invalid network provided], and an empty trace, so neither
    [Base58.decode] nor the hash was called. *)
Theorem unknown_network_rejected (prefix arg : JsValue) :
  (∀ name, prefix = JsString name → name ∉ validNetworks) →
  validateAddressesByNetwork prefix arg =
    MkRun [] (Return (rejection prefix "Invalid network provided"))
  ∧ success (rejection prefix "Invalid network provided") = false
  ∧ errorMsg (rejection prefix "Invalid network provided") ≠ EmptyString.
Proof.
  intros Hunknown. split; [| done].
  unfold validateAddressesByNetwork.
  destruct (Js.truthy (isValidNetwork prefix)) eqn:Hvalid.
  - apply isValidNetwork_truthy in Hvalid as (name & -> & Hin).
    by destruct (Hunknown name).
  - reflexivity.
Qed.

(** C9, amended. A non-empty bare string as the addresses argument, with a
    recognised prefix, makes the call throw: [extractAddressesFromObj]
    returns the string unchanged, the string passes the emptiness check of
    line 112, and [forEach] on it raises a [TypeError] before anything is
    decoded. (The empty string is falsy and is turned away at line 100 with
    a result.) *)
Theorem bare_string_throws (name s : string) :
  name ∈ validNetworks → s ≠ EmptyString →
  extractAddressesFromObj (JsString s) = Return (JsString s)
  ∧ noAddressesFound (JsString s) = Return false
  ∧ validateAddressesByNetwork (JsString name) (JsString s) = MkRun [] (Throw TypeError).
Proof.
  intros Hname Hs.
  destruct (getDecimalByNetwork_valid name Hname) as [tag Htag].
  destruct s as [|c s]; [done |]. split; [done |]. split; [done |].
  unfold validateAddressesByNetwork. rewrite (isValidNetwork_name name Hname).
  simpl. by rewrite Htag.
Qed.

(** C10. Every result the call returns, on any path, has [success = true]
    exactly when [errorMsg] is the empty string. *)
Theorem success_iff_no_errorMsg (prefix arg : JsValue) (r : ValidationResult) :
  outcome (validateAddressesByNetwork prefix arg) = Return r →
  (success r = true ↔ errorMsg r = EmptyString).
Proof.
  intros [(Hs & _ & Hmsg)|(name & l & inv & -> & ->)]%validate_returns.
  - rewrite Hs. split; [done |]. intros Hempty. rewrite Hempty in Hmsg.
    apply elem_of_cons in Hmsg as [Hmsg|Hmsg]; [discriminate Hmsg |].
    apply elem_of_cons in Hmsg as [Hmsg|Hmsg]; [discriminate Hmsg |].
    apply list_elem_of_singleton in Hmsg. discriminate Hmsg.
  - by destruct inv.
Qed.

(** ** Claims about [extractAddressesFromObj] *)

Lemma push_if_set_object (props : gmap string JsValue) (k : string) (acc : list JsValue) :
  push_if_set (JsObject props) k acc = Return (acc ++ scalar_field props k).
Proof.
  unfold push_if_set, scalar_field. simpl.
  destruct (props !! k) as [v|]; simpl.
  - destruct (Js.truthy v); [done | by rewrite app_nil_r].
  - by rewrite app_nil_r.
Qed.

(** Pushing one item per element appends the items, as long as each is
    obtained without a throw. *)
Lemma forEach_push (item : JsValue → Completion JsValue) (elems items acc : list JsValue) :
  Forall2 (λ e a, item e = Return a) elems items →
  forEach (λ addresses address, a ← item address; mret (addresses ++ [a])) elems acc
  = Return (acc ++ items).
Proof.
  intros Hitems. revert acc.
  induction Hitems as [|e a elems items He _ IH]; intros acc; simpl.
  - by rewrite app_nil_r.
  - rewrite He. simpl. rewrite IH. by rewrite <- app_assoc.
Qed.

Lemma push_each_object (props : gmap string JsValue) (k : string)
    (item : JsValue → Completion JsValue) (elems items acc : list JsValue) :
  list_field props k elems →
  Forall2 (λ e a, item e = Return a) elems items →
  push_each (JsObject props) k item acc = Return (acc ++ items).
Proof.
  intros [Hk|[Hk ->]] Hitems; unfold push_each; simpl; rewrite Hk; simpl.
  - destruct Hitems as [|e a elems items He Hrest]; simpl.
    + by rewrite app_nil_r.
    + apply (forEach_push item (e :: elems) (a :: items)). by constructor.
  - apply Forall2_nil_inv_l in Hitems as ->. by rewrite app_nil_r.
Qed.

(** C4. On a structured object whose list-valued fields are arrays (or
    absent), the extraction is the plain concatenation of the change
    address, the consolidation address, the first component of every
    recipient entry, the senders and the generic addresses: one flat list,
    nothing removed. For [{changeAddress: A, sender: [B], addresses: [C]}]
    (with [A] set, that is truthy) the list is [[A; B; C]], and validating
    the object is validating that list. *)
Theorem extract_structured (props : gmap string JsValue)
    (pairs : list (JsValue * JsValue)) (senders others : list JsValue)
    (A B C : JsValue) :
  list_field props "recipients" (recipient <$> pairs) →
  list_field props "sender" senders →
  list_field props "addresses" others →
  Js.truthy A = true →
  let obj := JsObject (<["changeAddress" := A]>
                      (<["sender" := JsArray [B]]>
                      (<["addresses" := JsArray [C]]> ∅))) in
  extractAddressesFromObj (JsObject props) =
    Return (JsArray (scalar_field props "changeAddress"
                     ++ scalar_field props "consolidationAdddress"
                     ++ pairs.*1 ++ senders ++ others))
  ∧ extractAddressesFromObj obj = Return (JsArray [A; B; C])
  ∧ validateAddressesByNetwork (JsString "local") obj =
    validateAddressesByNetwork (JsString "local") (JsArray [A; B; C]).
Proof.
  intros Hrecipients Hsender Haddresses HA obj.
  assert (∀ props' pairs' senders' others',
    list_field props' "recipients" (recipient <$> pairs') →
    list_field props' "sender" senders' →
    list_field props' "addresses" others' →
    extractAddressesFromObj (JsObject props') =
      Return (JsArray (scalar_field props' "changeAddress"
                       ++ scalar_field props' "consolidationAdddress"
                       ++ pairs'.*1 ++ senders' ++ others'))) as Hgeneral.
  { intros props' pairs' senders' others' Hr Hs Ha.
    unfold extractAddressesFromObj. simpl Js.constructor.
    rewrite completion_bind_return; cbv beta iota.
    rewrite push_if_set_object, completion_bind_return; cbv beta.
    rewrite push_if_set_object, completion_bind_return; cbv beta.
    rewrite (push_each_object props' _ _ _ (pairs'.*1) _ Hr), completion_bind_return.
    2: { clear. induction pairs' as [|[a amount] pairs' IH]; constructor; done. }
    cbv beta.
    rewrite (push_each_object props' _ _ _ senders' _ Hs), completion_bind_return.
    2: { clear. induction senders'; constructor; done. }
    cbv beta.
    rewrite (push_each_object props' _ _ _ others' _ Ha), completion_bind_return.
    2: { clear. induction others'; constructor; done. }
    simpl app at 1. unfold mret, Completion_ret. by rewrite <- !app_assoc. }
  split; [by apply Hgeneral |].
  assert (extractAddressesFromObj obj = Return (JsArray [A; B; C])) as Hobj.
  { subst obj. rewrite (Hgeneral _ [] [B] [C]).
    - unfold scalar_field. rewrite lookup_insert_eq, HA.
      by rewrite !lookup_insert_ne, lookup_empty by done.
    - right. by rewrite !lookup_insert_ne, lookup_empty by done.
    - left. by rewrite lookup_insert_ne, lookup_insert_eq by done.
    - left. by rewrite !lookup_insert_ne, lookup_insert_eq by done. }
  split; [done |]. by apply validate_as_array.
Qed.

End Claims.

(** ** Claims about the KeyManager *)

Section KeyManagerClaims.
Context {crypto : Crypto}.

(** C6. A construction argument that is neither a non-empty string nor an
    object with a string-valued [password] field makes construction fail
    with [InvalidPassword]; the trace of the failed construction is empty,
    so no key was derived before the failure. *)
Theorem new_rejects_bad_password (arg : JsValue) :
  (∀ s, arg = JsString s → s = EmptyString) →
  (∀ props p, arg = JsObject props → props !! "password" ≠ Some (JsString p)) →
  KeyManager.new arg = MkRun [] (Throw InvalidPassword).
Proof.
  intros Hstring Hobject. unfold KeyManager.new.
  destruct arg as [| | | |s| |props]; try reflexivity; simpl.
  - by rewrite (Hstring s eq_refl).
  - destruct (props !! "password") as [[| | | |p| |]|] eqn:Hp; try reflexivity.
    by destruct (Hobject props p eq_refl).
Qed.

(** C7. On a locked manager, [unlockKey] with anything but the construction
    password fails with [InvalidPassword] and leaves the manager as it was,
    locked, every field unchanged. *)
Theorem unlockKey_wrong_password (km : KeyManager.t) (arg : JsValue) :
  KeyManager.isLocked km = true →
  arg ≠ JsString (KeyManager.password km) →
  KeyManager.unlockKey km arg = (km, Throw InvalidPassword)
  ∧ KeyManager.isLocked (KeyManager.unlockKey km arg).1 = true.
Proof.
  intros Hlocked Hwrong.
  assert (KeyManager.unlockKey km arg = (km, Throw InvalidPassword)) as Heq.
  { unfold KeyManager.unlockKey. rewrite Hlocked.
    destruct arg as [| | | |s| |]; try reflexivity.
    destruct (String.eqb s (KeyManager.password km)) eqn:Hs; [| done].
    apply String.eqb_eq in Hs. by subst s. }
  by rewrite Heq.
Qed.

(** C8. [sign] ends in the same way, a [LockedError] and nothing else, in
    the three cases: on a locked manager whatever the message, on an
    unlocked one with the empty string, and on an unlocked one with a
    message that is no string. The three runs are equal, so the cause
    cannot be told from the error. *)
Theorem sign_conflates_causes (locked unlocked : KeyManager.t) (message other : JsValue) :
  KeyManager.isLocked locked = true →
  KeyManager.isLocked unlocked = false →
  (∀ s, other ≠ JsString s) →
  KeyManager.sign locked message = MkRun [] (Throw LockedError)
  ∧ KeyManager.sign unlocked (JsString EmptyString) = MkRun [] (Throw LockedError)
  ∧ KeyManager.sign unlocked other = MkRun [] (Throw LockedError).
Proof.
  intros Hlocked Hunlocked Hother. unfold KeyManager.sign.
  rewrite Hlocked, Hunlocked. repeat split.
  destruct other as [| | | |s| |]; try reflexivity. by destruct (Hother s).
Qed.

End KeyManagerClaims.

(** ** The code run on the data of the sources *)

(** The tags of the five networks (section 6 of the specification). *)
Example registry_tags :
  getDecimalByNetwork <$> validNetworks
  = [Return 0x30; Return 0x40; Return 0x01; Return 0x10; Return 0x20]%Z.
Proof. vm_compute. reflexivity. Qed.

(** RFC 7693, appendix A: BLAKE2b-512 of the three bytes of [abc] starts
    with [ba 80 a5 3f] and ends with [d4 00 99 23]. *)
Example blake2b_512_abc :
  take 4 (Blake2b.hash 64 [97; 98; 99]%Z) = [0xba; 0x80; 0xa5; 0x3f]%Z
  ∧ drop 60 (Blake2b.hash 64 [97; 98; 99]%Z) = [0xd4; 0x00; 0x99; 0x23]%Z.
Proof. split; vm_compute; reflexivity. Qed.

(** The address of [arrSingle] decodes to 38 bytes that start with the tag
    of [private] and end with the checksum of the first 34. *)
Example arrSingle_decodes :
  ∃ bytes,
    Base58.decode "AUAftQsaga8DjVfVvq7DK14fm5HvGEDdVLZwexZZvoP7oWkWCLoE" = Return bytes
    ∧ length bytes = 38 ∧ bytes !! 0 = Some 64%Z
    ∧ drop 34 bytes = [2; 193; 154; 205]%Z
    ∧ take 4 (Blake2b.hash 32 (take 34 bytes)) = [2; 193; 154; 205]%Z.
Proof. eexists. split; [vm_compute; reflexivity |]. repeat split; vm_compute; reflexivity. Qed.

(** Line 219 of the source: [validateAddressesByNetwork('private', arrSingle)]. *)
Example addValidationRes2 :
  outcome (@validateAddressesByNetwork node (JsString "private") (JsArray arrSingle))
  = Return {| success := true; errorMsg := EmptyString;
              networkPrefix := JsString "private";
              addresses := JsArray arrSingle; invalidAddresses := [] |}.
Proof. vm_compute. reflexivity. Qed.

(** A character outside the alphabet makes the decoder, and with it the
    whole call, throw. *)
Example undecodable_address_throws :
  outcome (@validateAddressesByNetwork node (JsString "private")
             (JsArray (arrSingle ++ [JsString "0OIl"])))
  = Throw (Base58Unacceptable "0").
Proof. vm_compute. reflexivity. Qed.

(** The decoder returns on the base58 strings and throws on the others. *)
Lemma Base58_digits_total (s : string) (bytes : list Z) :
  if Base58.is_base58 s
  then ∃ bytes', Base58.digits s bytes = Return bytes'
  else ∃ c, Base58.digits s bytes = Throw (Base58Unacceptable c).
Proof.
  revert bytes. induction s as [|c s IH]; intros bytes; simpl; [by eexists |].
  destruct (Base58.ALPHABET_MAP c) as [v|] eqn:Hc.
  - rewrite bool_decide_eq_true_2 by done. apply IH.
  - rewrite bool_decide_eq_false_2 by (by intros [? ?]). simpl. by eexists.
Qed.

Lemma Base58_decode_total (s : string) :
  if Base58.is_base58 s
  then ∃ bytes, Base58.decode s = Return bytes
  else ∃ c, Base58.decode s = Throw (Base58Unacceptable c).
Proof.
  destruct s as [|c s]; [by eexists |]. unfold Base58.decode.
  pose proof (Base58_digits_total (String c s) [0%Z]) as Hdigits.
  destruct (Base58.is_base58 (String c s)).
  - destruct Hdigits as [bytes' ->]. by eexists.
  - destruct Hdigits as [c' ->]. by eexists.
Qed.

Lemma sample_network (name : string) :
  bool_decide (name ∈ validNetworks) = true → name ∈ validNetworks.
Proof. apply bool_decide_eq_true_1. Defined.

Lemma sample_decodes (l : list JsValue) :
  Forall (λ a, ∃ bytes, @Base58_decode node a = Return bytes) l →
  ∀ a, a ∈ l → @decodes node a.
Proof. intros Hall a Hin. by apply (proj1 (Forall_forall _ _) Hall). Defined.

Lemma invalid_iff_defective_witness :
  ∃ tag r,
    getDecimalByNetwork "private" = Return tag ∧
    outcome (@validateAddressesByNetwork node (JsString "private")
               (JsArray (arrSingle ++ arrExample))) = Return r ∧
    addresses r = JsArray (arrSingle ++ arrExample) ∧
    ∀ a bytes, a ∈ arrSingle ++ arrExample → @Base58_decode node a = Return bytes →
      (a ∈ invalidAddresses r ↔ @InvalidAddress node tag bytes).
Proof.
  apply (@invalid_iff_defective node "private" (JsArray (arrSingle ++ arrExample))).
  - apply sample_network. vm_compute. reflexivity.
  - reflexivity.
  - apply sample_decodes. repeat constructor; eexists; vm_compute; reflexivity.
Defined.


Lemma checksum_corruption_detected_witness :
  ∃ r,
    outcome (@validateAddressesByNetwork node (JsString "private")
               (JsArray (arrSingle ++ [arrSingle_corrupted]))) = Return r ∧
    arrSingle_corrupted ∈ invalidAddresses r ∧ success r = false.
Proof.
  apply (@checksum_corruption_detected node "private"
           (JsString "AUAftQsaga8DjVfVvq7DK14fm5HvGEDdVLZwexZZvoP7oWkWCLoE")
           arrSingle_corrupted
           [64; 1; 180; 160; 213; 201; 189; 117; 64; 88; 116; 174; 131; 71; 132; 54; 87;
            148; 111; 132; 7; 241; 233; 74; 161; 39; 145; 110; 110; 167; 87; 76; 84; 209;
            2; 193; 154; 205]%Z 37 206%Z).
  - apply sample_network. vm_compute. reflexivity.
  - vm_compute. reflexivity.
  - eexists. split; [vm_compute; reflexivity | reflexivity].
  - lia.
  - discriminate.
  - vm_compute. reflexivity.
  - apply list_elem_of_In. right. left. reflexivity.
  - apply sample_decodes. repeat constructor; eexists; vm_compute; reflexivity.
Defined.

Lemma extract_structured_witness :
  @extractAddressesFromObj node (JsObject paramObj) = Return (JsArray arrExample)
  ∧ @extractAddressesFromObj node
      (JsObject (<["changeAddress" := JsString "A"]>
                (<["sender" := JsArray [JsString "B"]]>
                (<["addresses" := JsArray [JsString "C"]]> ∅))))
    = Return (JsArray [JsString "A"; JsString "B"; JsString "C"])
  ∧ @validateAddressesByNetwork node (JsString "local")
      (JsObject (<["changeAddress" := JsString "A"]>
                (<["sender" := JsArray [JsString "B"]]>
                (<["addresses" := JsArray [JsString "C"]]> ∅))))
    = @validateAddressesByNetwork node (JsString "local")
        (JsArray [JsString "A"; JsString "B"; JsString "C"]).
Proof.
  apply (@extract_structured node paramObj
           [(JsString "86tS2ExvjGEpS3Ntq5vZgHirUMuee7pJELGD8GmBoUyjXpAaAXTz",
             JsNumber (Finite 10 0))]
           [JsString "86tS2ExvjGEpS3Ntq5vZgHirUMuee7pJELGD8GmBoUyjXpAaAXTz"]
           [JsString "86tS2ExvjGEpS3Ntq5vZgHirUMuee7pJELGD8GmBoUyjXpAaAXTz"]
           (JsString "A") (JsString "B") (JsString "C")).
  - left. vm_compute. reflexivity.
  - left. vm_compute. reflexivity.
  - left. vm_compute. reflexivity.
  - reflexivity.
Defined.

Lemma unknown_network_rejected_witness :
  @validateAddressesByNetwork node (JsString "not_a_network") (JsArray arrSingle) =
    MkRun [] (Return (rejection (JsString "not_a_network") "Invalid network provided"))
  ∧ success (rejection (JsString "not_a_network") "Invalid network provided") = false
  ∧ errorMsg (rejection (JsString "not_a_network") "Invalid network provided") ≠ EmptyString.
Proof.
  apply (@unknown_network_rejected node (JsString "not_a_network") (JsArray arrSingle)).
  intros name Heq. injection Heq as <-.
  apply (bool_decide_unpack _). vm_compute. exact I.
Defined.

(** C1 as stated fails on a list that holds a string with a character
    outside the base58 alphabet: the five addresses of [arrExample] decode
    to buffers with the wrong tag for [private], yet the call throws at
    the decoding of the last element and returns no result, so none of
    them is reported in an [invalidAddresses] and no [addresses] field
    records the input. *)
Lemma undecodable_list_returns_nothing :
  outcome (@validateAddressesByNetwork node (JsString "private")
             (JsArray (arrExample ++ [JsString "0OIl"])))
  = Throw (Base58Unacceptable "0")
  ∧ Forall (λ a, ∃ bytes, @Base58_decode node a = Return bytes
                          ∧ @InvalidAddress node 64 bytes) arrExample
  ∧ ¬ ∃ r, outcome (@validateAddressesByNetwork node (JsString "private")
                      (JsArray (arrExample ++ [JsString "0OIl"]))) = Return r.
Proof.
  assert (outcome (@validateAddressesByNetwork node (JsString "private")
                     (JsArray (arrExample ++ [JsString "0OIl"])))
          = Throw (Base58Unacceptable "0")) as Hthrow by (vm_compute; reflexivity).
  split; [exact Hthrow |]. split.
  - repeat constructor; eexists; (split; [vm_compute; reflexivity |]);
      right; left; vm_compute; discriminate.
  - intros [r Hr]. rewrite Hthrow in Hr. discriminate Hr.
Qed.

(** C9 as stated fails on the empty string: it is a bare string, the prefix
    is recognised, and the call returns a result instead of throwing. *)
Lemma bare_empty_string_returns :
  @validateAddressesByNetwork node (JsString "local") (JsString EmptyString)
  = MkRun [] (Return (rejection (JsString "local") "No addresses provided"))
  ∧ outcome (@validateAddressesByNetwork node (JsString "local") (JsString EmptyString))
    ≠ Throw TypeError.
Proof. split; [vm_compute; reflexivity | discriminate]. Qed.

Lemma bare_string_throws_witness :
  @extractAddressesFromObj node (JsString "86tS2ExvjGEpS3Ntq5vZgHirUMuee7pJELGD8GmBoUyjXpAaAXTz")
    = Return (JsString "86tS2ExvjGEpS3Ntq5vZgHirUMuee7pJELGD8GmBoUyjXpAaAXTz")
  ∧ @noAddressesFound node (JsString "86tS2ExvjGEpS3Ntq5vZgHirUMuee7pJELGD8GmBoUyjXpAaAXTz")
    = Return false
  ∧ @validateAddressesByNetwork node (JsString "local")
      (JsString "86tS2ExvjGEpS3Ntq5vZgHirUMuee7pJELGD8GmBoUyjXpAaAXTz")
    = MkRun [] (Throw TypeError).
Proof.
  apply (@bare_string_throws node "local"
           "86tS2ExvjGEpS3Ntq5vZgHirUMuee7pJELGD8GmBoUyjXpAaAXTz").
  - apply sample_network. vm_compute. reflexivity.
  - discriminate.
Defined.

Lemma success_iff_no_errorMsg_witness :
  (success (verdict "private" (arrSingle ++ arrExample) arrExample) = true
   ↔ errorMsg (verdict "private" (arrSingle ++ arrExample) arrExample) = EmptyString)
  ∧ (success (verdict "private" arrSingle []) = true
     ↔ errorMsg (verdict "private" arrSingle []) = EmptyString).
Proof.
  split.
  - apply (@success_iff_no_errorMsg node (JsString "private")
             (JsArray (arrSingle ++ arrExample))).
    vm_compute. reflexivity.
  - apply (@success_iff_no_errorMsg node (JsString "private") (JsArray arrSingle)).
    vm_compute. reflexivity.
Defined.

Lemma new_rejects_bad_password_witness :
  Forall (λ arg, @KeyManager.new KeyManager.stub_crypto arg = MkRun [] (Throw InvalidPassword))
         (JsString EmptyString :: KeyManager.invalid_passwords).
Proof.
  unfold KeyManager.invalid_passwords.
  repeat (apply List.Forall_cons;
    [apply (@new_rejects_bad_password KeyManager.stub_crypto);
       [intros s Heq; first [discriminate Heq | by injection Heq as <-]
       |intros props p Heq;
        first [discriminate Heq | injection Heq as <-; vm_compute; discriminate]]
    |]).
  apply List.Forall_nil.
Defined.

Lemma unlockKey_wrong_password_witness :
  (KeyManager.unlockKey KeyManager.keyMan_locked (JsString "this_is_an_invalid_password")
     = (KeyManager.keyMan_locked, Throw InvalidPassword)
   ∧ KeyManager.isLocked
       (KeyManager.unlockKey KeyManager.keyMan_locked
          (JsString "this_is_an_invalid_password")).1 = true)
  ∧ (KeyManager.unlockKey KeyManager.keyMan_locked JsUndefined
       = (KeyManager.keyMan_locked, Throw InvalidPassword)
     ∧ KeyManager.isLocked
         (KeyManager.unlockKey KeyManager.keyMan_locked JsUndefined).1 = true).
Proof.
  split.
  - apply (@unlockKey_wrong_password KeyManager.stub_crypto KeyManager.keyMan_locked
             (JsString "this_is_an_invalid_password")); [reflexivity | discriminate].
  - apply (@unlockKey_wrong_password KeyManager.stub_crypto KeyManager.keyMan_locked
             JsUndefined); [reflexivity | discriminate].
Defined.

Lemma sign_conflates_causes_witness :
  KeyManager.sign KeyManager.keyMan_locked (JsString "topl_signature")
    = MkRun [] (Throw LockedError)
  ∧ KeyManager.sign (KeyManager.set_lock false KeyManager.keyMan_locked) (JsString EmptyString)
    = MkRun [] (Throw LockedError)
  ∧ KeyManager.sign (KeyManager.set_lock false KeyManager.keyMan_locked) (JsArray [])
    = MkRun [] (Throw LockedError).
Proof.
  apply (@sign_conflates_causes KeyManager.stub_crypto KeyManager.keyMan_locked
           (KeyManager.set_lock false KeyManager.keyMan_locked)
           (JsString "topl_signature") (JsArray []));
    [reflexivity | reflexivity | discriminate].
Defined.

(** The state machine on the steps of the tests: lock, a failed unlock,
    the unlock with the construction password, a second unlock, and a
    signature once unlocked. *)
Example keyMan_session :
  let km0 := KeyManager.keyMan_locked in
  let km1 := (KeyManager.unlockKey km0 (JsString "password_test")).1 in
  (KeyManager.lockKey km1).1 = km0
  ∧ KeyManager.isLocked km1 = false
  ∧ (KeyManager.unlockKey km1 (JsString "password_test")).2 = Throw AlreadyUnlocked
  ∧ (KeyManager.assign_isLocked km1 (JsBool false)).2 = Throw InvalidAccess
  ∧ ∃ signature,
      KeyManager.sign km1 (JsString "topl_valid_msg")
      = MkRun [SignMessage "topl_valid_msg"] (Return signature).
Proof. repeat split. eexists. reflexivity. Qed.

(** * Further properties of [address-utils.js] *)

Section Loop.
Context {rt : Runtime}.

(** The calls of the loop body do not depend on how it ends. *)
Lemma validateAddress_trace (tag : Z) (inv : list JsValue) (a : JsValue) :
  trace (validateAddress tag inv a) = address_events tag a.
Proof.
  unfold validateAddress, address_events, call, mbind, Run_bind, mret, Run_ret. simpl.
  destruct (Base58_decode a) as [bytes|e]; [| done]. simpl.
  destruct (length bytes =? 38); simpl; [| done].
  destruct (bool_decide (bytes !! 0 = Some tag)); simpl; [| done].
  by destruct (negb (bool_decide (drop 34 bytes = take 4 (blake2b_256 (take 34 bytes))))).
Qed.

(** Either every element decodes, or there is a first one that does not. *)
Lemma decodes_or_first_failure (l : list JsValue) :
  (∀ a, a ∈ l → decodes a)
  ∨ ∃ l1 a l2 e, l = l1 ++ a :: l2 ∧ (∀ b, b ∈ l1 → decodes b) ∧ Base58_decode a = Throw e.
Proof.
  induction l as [|a l IH].
  - left. by intros a ?%elem_of_nil.
  - destruct (Base58_decode a) as [bytes|e] eqn:Ha.
    + destruct IH as [Hall|(l1 & b & l2 & e & -> & Hl1 & Hb)].
      * left. intros b [->|Hb]%elem_of_cons; [by exists bytes | by apply Hall].
      * right. exists (a :: l1), b, l2, e. split; [done |]. split; [| done].
        intros c [->|Hc]%elem_of_cons; [by exists bytes | by apply Hl1].
    + right. exists [], a, l, e. split; [done |]. split; [| done].
      by intros b ?%elem_of_nil.
Qed.

(** A loop that returns has decoded every element, and has appended the
    rejected ones in order. *)
Lemma forEach_validate_returns (tag : Z) (l inv inv' : list JsValue) :
  outcome (forEach (validateAddress tag) l inv) = Return inv' →
  (∀ a, a ∈ l → decodes a) ∧ inv' = inv ++ filter (λ a, rejected tag a = true) l.
Proof.
  intros Hret. destruct (decodes_or_first_failure l)
    as [Hall|(l1 & a & l2 & e & -> & Hl1 & Ha)].
  - split; [done |]. rewrite (forEach_validate_outcome tag l inv Hall) in Hret.
    by injection Hret as <-.
  - by rewrite (forEach_validate_throws tag l1 l2 inv a e Hl1 Ha) in Hret.
Qed.

Lemma forEach_validate_trace (tag : Z) (l inv : list JsValue) :
  (∀ a, a ∈ l → decodes a) →
  trace (forEach (validateAddress tag) l inv) = l ≫= address_events tag.
Proof.
  revert inv. induction l as [|a l IH]; intros inv Hall; [done |].
  destruct (Hall a) as [bytes Hdec]; [by left |].
  simpl forEach. rewrite run_bind_trace, (validateAddress_outcome _ _ _ _ Hdec).
  rewrite validateAddress_trace, IH by (intros; apply Hall; by right).
  by rewrite bind_cons.
Qed.

Lemma forEach_validate_trace_throws (tag : Z) (l1 l2 inv : list JsValue) (a : JsValue) (e : Exn) :
  (∀ b, b ∈ l1 → decodes b) →
  Base58_decode a = Throw e →
  trace (forEach (validateAddress tag) (l1 ++ a :: l2) inv)
  = (l1 ≫= address_events tag) ++ [Base58Decode a].
Proof.
  revert inv. induction l1 as [|b l1 IH]; intros inv Hall Hdec.
  - simpl forEach. rewrite run_bind_trace, (validateAddress_throws _ _ _ _ Hdec). done.
  - destruct (Hall b) as [bytes Hb]; [by left |].
    simpl forEach. rewrite run_bind_trace, (validateAddress_outcome _ _ _ _ Hb).
    rewrite validateAddress_trace, IH; [| intros; apply Hall; by right | done].
    by rewrite bind_cons, app_assoc.
Qed.

(** Whatever happens, the calls of the loop are an initial part of the
    calls a complete pass would make. *)
Lemma forEach_validate_trace_prefix (tag : Z) (l inv : list JsValue) :
  trace (forEach (validateAddress tag) l inv) `prefix_of` (l ≫= address_events tag).
Proof.
  destruct (decodes_or_first_failure l) as [Hall|(l1 & a & l2 & e & -> & Hl1 & Ha)].
  - by rewrite forEach_validate_trace.
  - rewrite (forEach_validate_trace_throws tag l1 l2 inv a e Hl1 Ha).
    rewrite bind_app. apply prefix_app. rewrite bind_cons.
    assert (address_events tag a = [Base58Decode a]) as ->
      by (unfold address_events; by rewrite Ha).
    by exists (l2 ≫= address_events tag).
Qed.

Lemma extract_shape (obj r : JsValue) :
  extractAddressesFromObj obj = Return r →
  (∃ s, obj = JsString s ∧ r = obj) ∨ ∃ l, r = JsArray l.
Proof.
  unfold extractAddressesFromObj.
  destruct obj as [| | b | n | s | l | props]; simpl Js.constructor;
    rewrite ?completion_bind_return; cbv beta iota; unfold mret, Completion_ret;
    try done; try (intros [= <-]; left; by eauto).
  all: destruct (push_if_set _ "changeAddress" _) as [a1|]; [| done];
    rewrite completion_bind_return; cbv beta;
    destruct (push_if_set _ "consolidationAdddress" _) as [a2|]; [| done];
    rewrite completion_bind_return; cbv beta;
    destruct (push_each _ "recipients" _ _) as [a3|]; [| done];
    rewrite completion_bind_return; cbv beta;
    destruct (push_each _ "sender" _ _) as [a4|]; [| done];
    rewrite completion_bind_return; cbv beta;
    destruct (push_each _ "addresses" _ _) as [a5|]; [| done];
    rewrite completion_bind_return; cbv beta;
    intros [= <-]; right; eauto.
Qed.

Lemma normalize_shape (arg r : JsValue) :
  normalizeAddresses arg = Return r →
  (∃ s, arg = JsString s ∧ r = arg) ∨ ∃ l, r = JsArray l.
Proof.
  unfold normalizeAddresses. destruct arg; simpl Js.constructor;
    rewrite ?completion_bind_return; cbv beta iota; try done;
    try apply extract_shape.
  intros [= <-]. right. eauto.
Qed.

(** The two ways a call can go: it ends before the loop, having called
    nothing and returning, if it returns, one of the three early results;
    or it runs the loop over the non-empty normalized list. *)
Lemma validate_cases (prefix arg : JsValue) :
  (trace (validateAddressesByNetwork prefix arg) = []
   ∧ ∀ r, outcome (validateAddressesByNetwork prefix arg) = Return r →
       ∃ msg, msg ∈ early_messages ∧ r = rejection prefix msg)
  ∨ ∃ name tag l,
      prefix = JsString name ∧ name ∈ validNetworks
      ∧ getDecimalByNetwork name = Return tag
      ∧ Js.truthy arg = true
      ∧ normalizeAddresses arg = Return (JsArray l) ∧ l ≠ []
      ∧ trace (validateAddressesByNetwork prefix arg)
        = trace (forEach (validateAddress tag) l [])
      ∧ outcome (validateAddressesByNetwork prefix arg)
        = match outcome (forEach (validateAddress tag) l []) with
          | Return inv => Return (verdict name l inv)
          | Throw e => Throw e
          end.
Proof.
  unfold validateAddressesByNetwork.
  destruct (Js.truthy (isValidNetwork prefix)) eqn:Hvalid;
    [destruct prefix as [| | | |name| |] |];
    try (left; split; [done |]; intros r [= <-];
         exists "Invalid network provided"; split; [by left | done]).
  apply isValidNetwork_truthy in Hvalid as (name' & [= <-] & Hname).
  destruct (Js.truthy arg) eqn:Harg; simpl negb; cbv iota.
  2: { left. split; [done |]. intros r [= <-].
       exists "No addresses provided". split; [right; by left | done]. }
  destruct (getDecimalByNetwork_valid name Hname) as [tag Htag]. rewrite Htag.
  rewrite run_bind_pure_return.
  destruct (normalizeAddresses arg) as [normalized|e] eqn:Hnorm; [| by left].
  rewrite run_bind_pure_return.
  destruct (noAddressesFound normalized) as [[]|e] eqn:Hnone; [| | by left];
    rewrite run_bind_pure_return.
  - left. split; [done |]. intros r [= <-].
    exists "No addresses found". split; [right; right; by left |].
    destruct (normalize_shape _ _ Hnorm) as [(s & -> & ->)|[l ->]].
    + destruct s; [done |]. discriminate Hnone.
    + rewrite noAddressesFound_array in Hnone. injection Hnone as Hl.
      by apply bool_decide_eq_true in Hl as ->.
  - destruct normalized as [| | | | |l|]; try (by left).
    right. exists name, tag, l.
    rewrite noAddressesFound_array in Hnone. injection Hnone as Hl.
    apply bool_decide_eq_false in Hl.
    repeat (split; [done |]).
    simpl Js.forEach_elems. rewrite run_bind_pure_return.
    rewrite run_bind_trace, run_bind_outcome.
    change (invalidAddresses (set_addresses (JsArray l) _)) with (@nil JsValue).
    destruct (outcome (forEach _ l [])) as [inv|e]; [| done].
    split.
    + destruct inv; simpl; by rewrite app_nil_r.
    + by destruct inv.
Qed.

End Loop.

Section Returned.
Context {rt : Runtime}.

Lemma run_eq {A} (m : Run A) (t : list Event) (o : Completion A) :
  trace m = t → outcome m = o → m = MkRun t o.
Proof. destruct m. simpl. by intros -> ->. Qed.

Lemma passes_checks (tag : Z) (bytes : list Z) :
  fails_checks tag bytes = false ↔ WellFormed tag bytes.
Proof.
  unfold fails_checks, WellFormed.
  rewrite !orb_false_iff, !negb_false_iff, !bool_decide_eq_true, Nat.eqb_eq. tauto.
Qed.

(** The loop of a call on a recognised network and an argument that
    normalizes to a non-empty list. *)
Lemma validate_loop (name : string) (arg : JsValue) (l : list JsValue) :
  name ∈ validNetworks →
  normalizeAddresses arg = Return (JsArray l) → l ≠ [] →
  ∃ tag, getDecimalByNetwork name = Return tag
    ∧ trace (validateAddressesByNetwork (JsString name) arg)
      = trace (forEach (validateAddress tag) l [])
    ∧ outcome (validateAddressesByNetwork (JsString name) arg)
      = match outcome (forEach (validateAddress tag) l []) with
        | Return inv => Return (verdict name l inv)
        | Throw e => Throw e
        end.
Proof.
  intros Hname Hnorm Hne.
  destruct (getDecimalByNetwork_valid name Hname) as [tag Htag].
  exists tag. split; [done |].
  unfold validateAddressesByNetwork.
  rewrite (isValidNetwork_name name Hname), (normalized_truthy _ _ Hnorm Hne).
  simpl negb. cbv iota. rewrite Htag, Hnorm, !run_bind_pure_return.
  rewrite noAddressesFound_array, bool_decide_eq_false_2 by done.
  rewrite run_bind_pure_return. simpl Js.forEach_elems.
  rewrite run_bind_pure_return, run_bind_trace, run_bind_outcome.
  change (invalidAddresses (set_addresses (JsArray l) _)) with (@nil JsValue).
  destruct (outcome (forEach _ l [])) as [inv|e]; [| done].
  split.
  - destruct inv; simpl; by rewrite app_nil_r.
  - by destruct inv.
Qed.

(** What a returned result is: one of the three early results, or the
    verdict of a loop that decoded every address. *)
Lemma validate_returned (prefix arg : JsValue) (r : ValidationResult) :
  outcome (validateAddressesByNetwork prefix arg) = Return r →
  (∃ msg, msg ∈ early_messages ∧ r = rejection prefix msg)
  ∨ ∃ name tag l,
      prefix = JsString name ∧ name ∈ validNetworks
      ∧ getDecimalByNetwork name = Return tag
      ∧ normalizeAddresses arg = Return (JsArray l) ∧ l ≠ []
      ∧ (∀ a, a ∈ l → decodes a)
      ∧ r = verdict name l (filter (λ a, rejected tag a = true) l).
Proof.
  intros Hret.
  destruct (validate_cases prefix arg)
    as [[_ Hearly]|(name & tag & l & -> & Hname & Htag & _ & Hnorm & Hne & _ & Hout)].
  - left. by apply Hearly.
  - right. exists name, tag, l. rewrite Hout in Hret.
    destruct (outcome (forEach _ l [])) as [inv|e] eqn:Hloop; [| done].
    apply forEach_validate_returns in Hloop as [Hall ->].
    injection Hret as <-. done.
Qed.

(** A loop that rejected nothing found every address well formed. *)
Lemma none_rejected (tag : Z) (l : list JsValue) :
  (∀ a, a ∈ l → decodes a) →
  filter (λ a, rejected tag a = true) l = [] →
  ∀ a, a ∈ l → ∃ bytes, Base58_decode a = Return bytes ∧ WellFormed tag bytes.
Proof.
  intros Hall Hfilter a Hin. destruct (Hall a Hin) as [bytes Hdec].
  exists bytes. split; [done |].
  apply passes_checks. rewrite <- (rejected_decoded tag a bytes Hdec).
  destruct (rejected tag a) eqn:Hrej; [| done].
  by destruct (filter_nil_not_elem_of _ _ a Hfilter Hrej).
Qed.

(** A returned result with [success = true] is the verdict of a loop that
    rejected nothing. *)
Lemma validate_succeeded (prefix arg : JsValue) (r : ValidationResult) :
  outcome (validateAddressesByNetwork prefix arg) = Return r →
  success r = true →
  ∃ name tag l,
    prefix = JsString name ∧ getDecimalByNetwork name = Return tag
    ∧ normalizeAddresses arg = Return (JsArray l) ∧ l ≠ []
    ∧ (∀ a, a ∈ l → decodes a)
    ∧ filter (λ a, rejected tag a = true) l = []
    ∧ r = verdict name l [].
Proof.
  intros [(msg & _ & ->)|(name & tag & l & -> & _ & Htag & Hnorm & Hne & Hall & ->)]%validate_returned
    Hok; [done |].
  exists name, tag, l.
  destruct (filter _ l) as [|a0 inv] eqn:Hfilter; [| done].
  repeat (split; [done |]). done.
Qed.

(** X1. Every result the call returns echoes the prefix it was given, holds
    an array in [addresses], every element of which the decoder accepted,
    and lists in [invalidAddresses] a sub-list of that array, in the same
    order. A result with [success = true] has an empty
    [invalidAddresses]. *)
Theorem returned_result_shape (prefix arg : JsValue) (r : ValidationResult) :
  outcome (validateAddressesByNetwork prefix arg) = Return r →
  networkPrefix r = prefix
  ∧ ∃ l, addresses r = JsArray l
      ∧ (∀ a, a ∈ l → decodes a)
      ∧ invalidAddresses r `sublist_of` l
      ∧ (success r = true → invalidAddresses r = []).
Proof.
  intros [(msg & _ & ->)|(name & tag & l & -> & _ & _ & _ & Hne & Hall & ->)]%validate_returned.
  - split; [done |]. exists []. split; [done |]. split; [by intros a ?%elem_of_nil |].
    split; [done |]. done.
  - pose proof (sublist_filter (λ a, rejected tag a = true) l) as Hsub.
    destruct (filter _ l) as [|a inv]; (split; [done |]); exists l; simpl; by eauto.
Qed.

(** X2. For a recognised network with tag [tag], the [invalidAddresses] of
    a returned result is exactly the list of the rejected elements of
    [addresses], in their order and as often as they occur. *)
Theorem returned_invalid_exact (name : string) (tag : Z) (arg : JsValue)
    (r : ValidationResult) :
  getDecimalByNetwork name = Return tag →
  outcome (validateAddressesByNetwork (JsString name) arg) = Return r →
  ∃ l, addresses r = JsArray l
    ∧ invalidAddresses r = filter (λ a, rejected tag a = true) l.
Proof.
  intros Htag
    [(msg & _ & ->)|(name' & tag' & l & [= <-] & _ & Htag' & _ & _ & _ & ->)]%validate_returned.
  - by exists [].
  - assert (tag' = tag) as -> by congruence.
    exists l. by destruct (filter _ l).
Qed.

(** X3. A result with [success = true] certifies every address it lists:
    each element of [addresses] decodes to 38 bytes that start with the
    tag of the network and end with the first four bytes of the hash of
    the first 34. *)
Theorem success_certifies (prefix arg : JsValue) (r : ValidationResult) :
  outcome (validateAddressesByNetwork prefix arg) = Return r →
  success r = true →
  ∃ name tag l,
    prefix = JsString name ∧ getDecimalByNetwork name = Return tag
    ∧ addresses r = JsArray l
    ∧ ∀ a, a ∈ l → ∃ bytes, Base58_decode a = Return bytes ∧ WellFormed tag bytes.
Proof.
  intros Hr Hok.
  destruct (validate_succeeded prefix arg r Hr Hok)
    as (name & tag & l & -> & Htag & _ & Hne & Hall & Hfilter & ->).
  exists name, tag, l. repeat (split; [done |]).
  by apply none_rejected.
Qed.

(** X4. The first element the decoder refuses ends the call with the
    decoder's exception: no result is returned, the elements before it
    have been processed, and nothing after it is decoded, logged or
    hashed. *)
Theorem undecodable_stops_validation (name : string) (l1 l2 : list JsValue)
    (a : JsValue) (e : Exn) :
  name ∈ validNetworks →
  (∀ b, b ∈ l1 → decodes b) →
  Base58_decode a = Throw e →
  ∃ tag, getDecimalByNetwork name = Return tag
    ∧ validateAddressesByNetwork (JsString name) (JsArray (l1 ++ a :: l2))
      = MkRun ((l1 ≫= address_events tag) ++ [Base58Decode a]) (Throw e).
Proof.
  intros Hname Hl1 Ha.
  destruct (validate_loop name (JsArray (l1 ++ a :: l2)) (l1 ++ a :: l2) Hname)
    as (tag & Htag & Htrace & Hout); [done | by destruct l1 |].
  exists tag. split; [done |]. apply run_eq.
  - by rewrite Htrace, (forEach_validate_trace_throws tag l1 l2 [] a e Hl1 Ha).
  - by rewrite Hout, (forEach_validate_throws tag l1 l2 [] a e Hl1 Ha).
Qed.

(** X5. On a list of decodable addresses the call decodes each address
    exactly once, in the order of the list, logs the decoded bytes, and
    computes the hash of the first 34 bytes only for the addresses with
    the right length and tag. *)
Theorem validation_calls (name : string) (arg : JsValue) (l : list JsValue) :
  name ∈ validNetworks →
  normalizeAddresses arg = Return (JsArray l) → l ≠ [] →
  (∀ a, a ∈ l → decodes a) →
  ∃ tag, getDecimalByNetwork name = Return tag
    ∧ trace (validateAddressesByNetwork (JsString name) arg) = l ≫= address_events tag.
Proof.
  intros Hname Hnorm Hne Hall.
  destruct (validate_loop name arg l Hname Hnorm Hne) as (tag & Htag & Htrace & _).
  exists tag. split; [done |]. by rewrite Htrace, forEach_validate_trace.
Qed.

(** X6. Whatever the arguments and however the call ends, it only decodes
    elements of the normalized list, only logs what the decoder returned,
    only hashes 34-byte messages that start with the tag of the network,
    and makes no other call. *)
Theorem calls_are_confined (prefix arg : JsValue) (ev : Event) :
  ev ∈ trace (validateAddressesByNetwork prefix arg) →
  ∃ name tag l,
    prefix = JsString name ∧ getDecimalByNetwork name = Return tag
    ∧ normalizeAddresses arg = Return (JsArray l)
    ∧ match ev with
      | Base58Decode a => a ∈ l
      | ConsoleLog bytes => ∃ a, a ∈ l ∧ Base58_decode a = Return bytes
      | Blake2bHash msg => length msg = 34 ∧ msg !! 0 = Some tag
      | DeriveKeyPair _ | SignMessage _ => False
      end.
Proof.
  destruct (validate_cases prefix arg)
    as [[-> _]|(name & tag & l & -> & _ & Htag & _ & Hnorm & _ & -> & _)];
    [by intros ?%elem_of_nil |].
  intros Hev. exists name, tag, l. repeat (split; [done |]).
  destruct (forEach_validate_trace_prefix tag l []) as [rest Hrest].
  assert (ev ∈ l ≫= address_events tag) as Hin
    by (rewrite Hrest; apply elem_of_app; by left).
  apply list_elem_of_bind in Hin as (a & Hin & Ha).
  unfold address_events in Hin. apply elem_of_cons in Hin as [->|Hin]; [done |].
  destruct (Base58_decode a) as [bytes|] eqn:Hdec; [| by apply elem_of_nil in Hin].
  apply elem_of_cons in Hin as [->|Hin]; [by eauto |].
  destruct (length bytes =? 38) eqn:Hlen; [| by apply elem_of_nil in Hin].
  destruct (bool_decide (bytes !! 0 = Some tag)) eqn:Hb0; [| by apply elem_of_nil in Hin].
  apply list_elem_of_singleton in Hin as ->.
  apply Nat.eqb_eq in Hlen. apply bool_decide_eq_true in Hb0.
  split; [rewrite length_take; lia | by rewrite lookup_take_lt by lia].
Qed.

End Returned.

(** ** The registry *)

Lemma getDecimalByNetwork_returns (name : string) (tag : Z) :
  getDecimalByNetwork name = Return tag → name ∈ validNetworks.
Proof.
  unfold getDecimalByNetwork, getByNetwork.
  destruct (networksDefaults !! name) as [d|] eqn:Hd; [| done]. intros _.
  apply elem_of_list_to_map_2 in Hd. revert Hd. unfold validNetworks.
  rewrite !elem_of_cons, !elem_of_nil.
  intros [Hd|[Hd|[Hd|[Hd|[Hd|[]]]]]]; injection Hd as -> _; tauto.
Qed.

Lemma tags_injective (name1 name2 : string) (tag : Z) :
  getDecimalByNetwork name1 = Return tag →
  getDecimalByNetwork name2 = Return tag →
  name1 = name2.
Proof.
  intros H1 H2.
  pose proof (getDecimalByNetwork_returns _ _ H1) as Hin1.
  pose proof (getDecimalByNetwork_returns _ _ H2) as Hin2.
  revert Hin1 Hin2 H1 H2. unfold validNetworks. rewrite !elem_of_cons, !elem_of_nil.
  intros [->|[->|[->|[->|[->|[]]]]]] [->|[->|[->|[->|[->|[]]]]]];
    vm_compute; congruence.
Qed.

Section Composition.
Context {rt : Runtime}.

(** X7. With a recognised prefix, a missing or falsy addresses argument
    ([undefined], [null], [false], [0], [NaN], the empty string) is
    answered at once with [No addresses provided]: no extraction, no
    call. *)
Theorem falsy_addresses_rejected (name : string) (arg : JsValue) :
  name ∈ validNetworks →
  Js.truthy arg = false →
  validateAddressesByNetwork (JsString name) arg
  = MkRun [] (Return (rejection (JsString name) "No addresses provided")).
Proof.
  intros Hname Harg. unfold validateAddressesByNetwork.
  by rewrite (isValidNetwork_name name Hname), Harg.
Qed.

(** X8. With a recognised prefix, an argument that holds no address (the
    empty array, [true], a non-zero number, an object with none of the
    five fields of [keys]) is answered with [No addresses found], without
    any call and without a throw. *)
Theorem nothing_to_validate (name : string) (arg : JsValue) :
  name ∈ validNetworks →
  Js.truthy arg = true →
  arg = JsArray []
  ∨ (∃ b, arg = JsBool b)
  ∨ (∃ n, arg = JsNumber n)
  ∨ (∃ props, arg = JsObject props ∧ ∀ k, k ∈ keys → props !! k = None) →
  validateAddressesByNetwork (JsString name) arg
  = MkRun [] (Return (rejection (JsString name) "No addresses found")).
Proof.
  intros Hname Harg Hshape.
  assert (normalizeAddresses arg = Return (JsArray [])) as Hnorm.
  { destruct Hshape as [->|[[b ->]|[[n ->]|(props & -> & Hnone)]]]; try reflexivity.
    unfold normalizeAddresses, extractAddressesFromObj, push_if_set, push_each.
    simpl.
    rewrite (Hnone "changeAddress"), (Hnone "consolidationAdddress"),
      (Hnone "recipients"), (Hnone "sender"), (Hnone "addresses")
      by (unfold keys; repeat constructor).
    reflexivity. }
  destruct (getDecimalByNetwork_valid name Hname) as [tag Htag].
  unfold validateAddressesByNetwork.
  rewrite (isValidNetwork_name name Hname), Harg. simpl negb. cbv iota.
  by rewrite Htag, Hnorm, !run_bind_pure_return.
Qed.

(** X9. Validation distributes over concatenation: for two non-empty lists
    of decodable addresses, the invalid addresses of the concatenation are
    those of the first list followed by those of the second, and the
    concatenation succeeds exactly when both lists do. *)
Theorem validation_of_concatenation (name : string) (l1 l2 : list JsValue) :
  name ∈ validNetworks →
  l1 ≠ [] → l2 ≠ [] →
  (∀ a, a ∈ l1 → decodes a) → (∀ a, a ∈ l2 → decodes a) →
  ∃ r1 r2 r,
    outcome (validateAddressesByNetwork (JsString name) (JsArray l1)) = Return r1
    ∧ outcome (validateAddressesByNetwork (JsString name) (JsArray l2)) = Return r2
    ∧ outcome (validateAddressesByNetwork (JsString name) (JsArray (l1 ++ l2))) = Return r
    ∧ invalidAddresses r = invalidAddresses r1 ++ invalidAddresses r2
    ∧ success r = success r1 && success r2.
Proof.
  intros Hname Hne1 Hne2 Hall1 Hall2.
  destruct (validate_normalized name (JsArray l1) l1 Hname) as (tag & Htag & Hr1);
    [done | done | done |].
  destruct (validate_normalized name (JsArray l2) l2 Hname) as (tag2 & Htag2 & Hr2);
    [done | done | done |].
  destruct (validate_normalized name (JsArray (l1 ++ l2)) (l1 ++ l2) Hname)
    as (tag3 & Htag3 & Hr); [done | by destruct l1 | |].
  { intros a [?|?]%elem_of_app; auto. }
  assert (tag2 = tag) as -> by congruence. assert (tag3 = tag) as -> by congruence.
  eexists _, _, _. repeat (split; [eassumption |]).
  rewrite filter_app.
  by destruct (filter _ l1), (filter _ l2).
Qed.

(** X10. The order of the addresses does not matter for the outcome: two
    lists that are permutations of each other get the same [success] and
    [errorMsg], and their invalid addresses are permutations of each
    other. *)
Theorem validation_permutation (name : string) (l1 l2 : list JsValue) :
  name ∈ validNetworks →
  l1 ≡ₚ l2 → l1 ≠ [] →
  (∀ a, a ∈ l1 → decodes a) →
  ∃ r1 r2,
    outcome (validateAddressesByNetwork (JsString name) (JsArray l1)) = Return r1
    ∧ outcome (validateAddressesByNetwork (JsString name) (JsArray l2)) = Return r2
    ∧ invalidAddresses r1 ≡ₚ invalidAddresses r2
    ∧ success r1 = success r2
    ∧ errorMsg r1 = errorMsg r2.
Proof.
  intros Hname Hperm Hne Hall.
  assert (l2 ≠ []) as Hne2 by (intros ->; by apply Permutation_nil_r in Hperm).
  destruct (validate_normalized name (JsArray l1) l1 Hname) as (tag & Htag & Hr1);
    [done | done | done |].
  destruct (validate_normalized name (JsArray l2) l2 Hname) as (tag2 & Htag2 & Hr2);
    [done | done | by intros a Ha; apply Hall; rewrite Hperm |].
  assert (tag2 = tag) as -> by congruence.
  eexists _, _. repeat (split; [eassumption |]).
  assert (filter (λ a, rejected tag a = true) l1 ≡ₚ filter (λ a, rejected tag a = true) l2)
    as Hf by (by rewrite Hperm).
  destruct (filter _ l1) as [|a1 f1], (filter _ l2) as [|a2 f2]; try done.
  - by apply Permutation_nil_l in Hf.
  - by apply Permutation_nil_r in Hf.
Qed.

(** X11. The networks exclude each other: every address of a list that
    validates with [success = true] for one network is rejected for every
    other recognised network, so a list that holds an address and
    succeeds for one network fails for all the others. *)
Theorem networks_exclusive (name1 name2 : string) (l : list JsValue) (a : JsValue)
    (r1 : ValidationResult) :
  name2 ∈ validNetworks → name1 ≠ name2 →
  outcome (validateAddressesByNetwork (JsString name1) (JsArray l)) = Return r1 →
  success r1 = true →
  a ∈ l →
  ∃ r2,
    outcome (validateAddressesByNetwork (JsString name2) (JsArray l)) = Return r2
    ∧ invalidAddresses r2 = l ∧ a ∈ invalidAddresses r2 ∧ success r2 = false.
Proof.
  intros Hname2 Hdiff Hr1 Hok Hin.
  destruct (validate_succeeded _ _ _ Hr1 Hok)
    as (name & tag1 & l' & [= <-] & Htag1 & [= <-] & Hne & Hall & Hfilter & _).
  pose proof (none_rejected tag1 l Hall Hfilter) as Hgood.
  destruct (validate_normalized name2 (JsArray l) l Hname2) as (tag2 & Htag2 & Hr2);
    [done | done | by intros b (bytes & ? & _)%Hgood; exists bytes |].
  assert (tag1 ≠ tag2) as Htags
    by (intros <-; by destruct Hdiff; eapply tags_injective).
  assert (filter (λ a, rejected tag2 a = true) l = l) as Hrejected.
  { clear Hr2 Hr1 Hne Hall Hfilter Hin. induction l as [|b l IH]; [done |].
    destruct (Hgood b) as (bytes & Hdec & _ & Hb0 & _); [by left |].
    rewrite filter_cons_True.
    - f_equal. apply IH. intros; apply Hgood; by right.
    - rewrite (rejected_decoded tag2 b bytes Hdec). apply fails_checks_spec.
      right. left. rewrite Hb0. congruence. }
  eexists. split; [exact Hr2 |]. rewrite Hrejected.
  destruct l as [|b l]; [by apply elem_of_nil in Hin | done].
Qed.

(** X18. The verdict on an address does not depend on its company: an
    address of a list of decodable addresses is reported in
    [invalidAddresses] exactly when validating it alone fails. *)
Theorem verdict_is_per_address (name : string) (l : list JsValue) (a : JsValue) :
  name ∈ validNetworks → a ∈ l →
  (∀ b, b ∈ l → decodes b) →
  ∃ r r1,
    outcome (validateAddressesByNetwork (JsString name) (JsArray l)) = Return r
    ∧ outcome (validateAddressesByNetwork (JsString name) (JsArray [a])) = Return r1
    ∧ (a ∈ invalidAddresses r ↔ success r1 = false).
Proof.
  intros Hname Hin Hall.
  assert (l ≠ []) as Hne by (intros ->; by apply elem_of_nil in Hin).
  destruct (validate_normalized name (JsArray l) l Hname) as (tag & Htag & Hr);
    [done | done | done |].
  destruct (validate_normalized name (JsArray [a]) [a] Hname) as (tag1 & Htag1 & Hr1);
    [done | done | by intros b ->%list_elem_of_singleton; apply Hall |].
  assert (tag1 = tag) as -> by congruence.
  eexists _, _. split; [exact Hr |]. split; [exact Hr1 |].
  transitivity (rejected tag a = true).
  - transitivity (a ∈ filter (λ a, rejected tag a = true) l).
    + by destruct (filter _ l).
    + rewrite list_elem_of_filter. tauto.
  - destruct (rejected tag a) eqn:Hrej.
    + by rewrite filter_cons_True by done.
    + rewrite filter_cons_False by (by rewrite Hrej). done.
Qed.

(** X17. Validating a structured object is validating the list that
    [extractAddressesFromObj] makes of it: the two calls make the same
    calls and end the same way. *)
Theorem object_validates_as_its_extraction (prefix : JsValue)
    (props : gmap string JsValue) (l : list JsValue) :
  extractAddressesFromObj (JsObject props) = Return (JsArray l) →
  validateAddressesByNetwork prefix (JsObject props)
  = validateAddressesByNetwork prefix (JsArray l).
Proof. intros Hextract. by apply validate_as_array. Qed.

End Composition.

(** X12. The list of names and the table of defaults agree:
    [isValidNetwork] accepts exactly the strings that have an entry in
    [networksDefaults], these are exactly the names that
    [getValidNetworksList] returns, and on each of them the three getters
    return the fields of the entry. *)
Theorem registry_coherent (v : JsValue) :
  (Js.truthy (isValidNetwork v) = true
   ↔ ∃ name, v = JsString name ∧ is_Some (networksDefaults !! name))
  ∧ (∀ name, name ∈ getValidNetworksList v ↔ is_Some (networksDefaults !! name))
  ∧ (∀ name entry, networksDefaults !! name = Some entry →
       getHexByNetwork name = Return (hex entry)
       ∧ getDecimalByNetwork name = Return (decimal entry)
       ∧ getUrlByNetwork name = Return (url entry)).
Proof.
  assert (∀ name, name ∈ validNetworks ↔ is_Some (networksDefaults !! name)) as Hagree.
  { intros name. split.
    - intros [tag Htag]%getDecimalByNetwork_valid.
      unfold getDecimalByNetwork, getByNetwork in Htag.
      by destruct (networksDefaults !! name).
    - intros [entry Hentry]. apply (getDecimalByNetwork_returns name (decimal entry)).
      unfold getDecimalByNetwork, getByNetwork. by rewrite Hentry. }
  split; [| split].
  - rewrite isValidNetwork_truthy. by setoid_rewrite Hagree.
  - exact Hagree.
  - intros name entry Hentry.
    unfold getHexByNetwork, getDecimalByNetwork, getUrlByNetwork, getByNetwork.
    by rewrite Hentry.
Qed.

(** X13. The tag of a network is a byte, the [hex] entry is that byte
    written with two hexadecimal digits after [0x], and two networks with
    the same tag are the same network. *)
Theorem tags_are_distinct_bytes (name1 name2 : string) (tag1 tag2 : Z) :
  getDecimalByNetwork name1 = Return tag1 →
  getDecimalByNetwork name2 = Return tag2 →
  (0 ≤ tag1 < 256)%Z
  ∧ getHexByNetwork name1 = Return ("0x" +:+ hex_byte tag1)
  ∧ (tag1 = tag2 → name1 = name2).
Proof.
  intros H1 H2. split; [| split].
  - pose proof (getDecimalByNetwork_returns _ _ H1) as Hin. revert Hin H1.
    unfold validNetworks. rewrite !elem_of_cons, elem_of_nil.
    intros [->|[->|[->|[->|[->|[]]]]]]; vm_compute; intros [= <-]; split; congruence.
  - pose proof (getDecimalByNetwork_returns _ _ H1) as Hin. revert Hin H1.
    unfold validNetworks. rewrite !elem_of_cons, elem_of_nil.
    intros [->|[->|[->|[->|[->|[]]]]]]; vm_compute; intros [= <-]; reflexivity.
  - intros <-. by eapply tags_injective.
Qed.

Section Extraction.
Context {rt : Runtime}.

Lemma push_each_string (props : gmap string JsValue) (k s : string)
    (item : JsValue → Completion JsValue) (acc : list JsValue) :
  s ≠ EmptyString → props !! k = Some (JsString s) →
  push_each (JsObject props) k item acc = Throw TypeError.
Proof.
  intros Hs Hk. unfold push_each. simpl. rewrite Hk. simpl.
  destruct s as [|c s]; [done |]. reflexivity.
Qed.

(** X14. A list-valued field that holds a bare non-empty string instead of
    an array makes the extraction throw a [TypeError], and with it every
    validation of the object for a recognised network, before anything is
    decoded. *)
Theorem string_field_throws (props : gmap string JsValue)
    (pairs : list (JsValue * JsValue)) (senders : list JsValue) (s name : string) :
  s ≠ EmptyString →
  props !! "recipients" = Some (JsString s)
  ∨ (list_field props "recipients" (recipient <$> pairs)
     ∧ props !! "sender" = Some (JsString s))
  ∨ (list_field props "recipients" (recipient <$> pairs)
     ∧ list_field props "sender" senders
     ∧ props !! "addresses" = Some (JsString s)) →
  name ∈ validNetworks →
  extractAddressesFromObj (JsObject props) = Throw TypeError
  ∧ validateAddressesByNetwork (JsString name) (JsObject props) = MkRun [] (Throw TypeError).
Proof.
  intros Hs Hfield Hname.
  assert (extractAddressesFromObj (JsObject props) = Throw TypeError) as Hextract.
  { assert (Forall2 (λ e a, Js.get0 e = Return a) (recipient <$> pairs) (pairs.*1)) as Hitems
      by (clear; induction pairs as [|[a amount] pairs IH]; constructor; done).
    unfold extractAddressesFromObj. simpl Js.constructor.
    rewrite completion_bind_return; cbv beta iota.
    rewrite push_if_set_object, completion_bind_return; cbv beta.
    rewrite push_if_set_object, completion_bind_return; cbv beta.
    destruct Hfield as [Hr|[[Hr Hsnd]|(Hr & Hsnd & Ha)]].
    - by rewrite (push_each_string props _ s _ _ Hs Hr).
    - rewrite (push_each_object props _ _ _ (pairs.*1) _ Hr Hitems), completion_bind_return.
      cbv beta. by rewrite (push_each_string props _ s _ _ Hs Hsnd).
    - rewrite (push_each_object props _ _ _ (pairs.*1) _ Hr Hitems), completion_bind_return.
      cbv beta.
      rewrite (push_each_object props _ _ _ senders _ Hsnd), completion_bind_return
        by (clear; induction senders; constructor; done).
      cbv beta. by rewrite (push_each_string props _ s _ _ Hs Ha). }
  split; [done |].
  destruct (getDecimalByNetwork_valid name Hname) as [tag Htag].
  unfold validateAddressesByNetwork. rewrite (isValidNetwork_name name Hname).
  simpl Js.truthy. simpl negb. cbv iota. rewrite Htag, run_bind_pure_return.
  unfold normalizeAddresses. simpl Js.constructor.
  rewrite completion_bind_return. cbv beta iota. by rewrite Hextract.
Qed.

Lemma forEach_get0_strings (strs : list string) (acc : list JsValue) :
  forEach (λ addresses address, a ← Js.get0 address; mret (addresses ++ [a]))
          (JsString <$> strs) acc
  = Return (acc ++ (first_unit <$> strs)).
Proof.
  apply forEach_push. induction strs as [|[|c s] strs IH]; constructor; done.
Qed.

Lemma forEach_get0_nullish (l : list JsValue) (acc : list JsValue) :
  JsNull ∈ l ∨ JsUndefined ∈ l →
  forEach (λ addresses address, a ← Js.get0 address; mret (addresses ++ [a])) l acc
  = Throw TypeError.
Proof.
  revert acc. induction l as [|x l IH]; intros acc Hin.
  - destruct Hin as [Hin|Hin]; by apply elem_of_nil in Hin.
  - simpl forEach. destruct (Js.get0 x) as [y|e] eqn:Hx.
    + change (forEach (λ addresses address, a ← Js.get0 address; mret (addresses ++ [a]))
                      l (acc ++ [y]) = Throw TypeError).
      apply IH.
      destruct Hin as [Hin|Hin]; apply elem_of_cons in Hin as [Hin|Hin];
        try (subst x; simpl in Hx; discriminate Hx); auto.
    + destruct x as [| | | |[|c s]| |]; simpl in Hx; try discriminate Hx;
        by injection Hx as <-.
Qed.

(** X15. A recipient entry is read at index 0. Entries that are bare
    strings contribute only their first character (nothing usable as an
    address), and a [null] or [undefined] entry makes the extraction throw
    a [TypeError]. *)
Theorem recipient_entries_are_indexed (props : gmap string JsValue)
    (entries : list JsValue) (strs : list string) (senders others : list JsValue) :
  props !! "recipients" = Some (JsArray entries) →
  list_field props "sender" senders →
  list_field props "addresses" others →
  (entries = JsString <$> strs →
     extractAddressesFromObj (JsObject props) =
       Return (JsArray (scalar_field props "changeAddress"
                        ++ scalar_field props "consolidationAdddress"
                        ++ (first_unit <$> strs) ++ senders ++ others)))
  ∧ (JsNull ∈ entries ∨ JsUndefined ∈ entries →
     extractAddressesFromObj (JsObject props) = Throw TypeError).
Proof.
  intros Hr Hsnd Ha.
  assert (∀ acc, push_each (JsObject props) "recipients" Js.get0 acc
                 = if bool_decide (entries = []) then Return acc
                   else forEach (λ addresses address,
                                   a ← Js.get0 address; mret (addresses ++ [a]))
                                entries acc) as Hpush.
  { intros acc. unfold push_each. simpl. rewrite Hr. by destruct entries. }
  unfold extractAddressesFromObj. simpl Js.constructor.
  rewrite completion_bind_return; cbv beta iota.
  rewrite push_if_set_object, completion_bind_return; cbv beta.
  rewrite push_if_set_object, completion_bind_return; cbv beta.
  rewrite Hpush. split.
  - intros ->. assert ((if bool_decide (JsString <$> strs = [])
                        then Return (([] ++ scalar_field props "changeAddress")
                                     ++ scalar_field props "consolidationAdddress")
                        else forEach _ (JsString <$> strs) _)
                       = Return ((([] ++ scalar_field props "changeAddress")
                                  ++ scalar_field props "consolidationAdddress")
                                 ++ (first_unit <$> strs))) as ->.
    { case_bool_decide as Hnil; [| apply forEach_get0_strings].
      apply fmap_nil_inv in Hnil as ->. by rewrite app_nil_r. }
    rewrite completion_bind_return; cbv beta.
    rewrite (push_each_object props _ _ _ senders _ Hsnd), completion_bind_return
      by (clear; induction senders; constructor; done).
    cbv beta.
    rewrite (push_each_object props _ _ _ others _ Ha), completion_bind_return
      by (clear; induction others; constructor; done).
    simpl app at 1. unfold mret, Completion_ret. by rewrite <- !app_assoc.
  - intros Hnullish. rewrite bool_decide_eq_false_2.
    + by rewrite forEach_get0_nullish.
    + intros ->. destruct Hnullish as [Hin|Hin]; by apply elem_of_nil in Hin.
Qed.

(** X16. [str2buf] and the validation agree on an address: if a non-empty
    string validates with [success = true] for a network, then [str2buf]
    of that string, without an encoding, is a buffer of 38 bytes that
    starts with the tag of the network. On [undefined], [null], the empty
    string and anything that is no string it returns its argument. *)
Theorem str2buf_of_valid_address (Buffer_from : string → JsValue → Completion (list Z))
    (name s : string) (tag : Z) (r : ValidationResult) :
  s ≠ EmptyString →
  getDecimalByNetwork name = Return tag →
  outcome (validateAddressesByNetwork (JsString name) (JsArray [JsString s])) = Return r →
  success r = true →
  (∃ bytes, str2buf Buffer_from (JsString s) JsUndefined = Return (Buffer bytes)
            ∧ length bytes = 38 ∧ bytes !! 0 = Some tag)
  ∧ ∀ v enc, (∀ s', v = JsString s' → s' = EmptyString) →
      str2buf Buffer_from v enc = Return (Unchanged v).
Proof.
  intros Hs Htag Hr Hok. split.
  - destruct (validate_succeeded _ _ _ Hr Hok)
      as (name' & tag' & l & [= <-] & Htag' & [= <-] & _ & Hall & Hfilter & _).
    assert (tag' = tag) as -> by congruence.
    pose proof (none_rejected tag _ Hall Hfilter) as Hgood.
    destruct (Hgood (JsString s)) as (bytes & Hdec & Hlen & Hb0 & _); [by left |].
    exists bytes. unfold str2buf. destruct s as [|c s]; [done |]. simpl.
    by rewrite Hdec.
  - intros v enc Hv. unfold str2buf. destruct v as [| | | |s'| |]; try reflexivity.
    + by destruct b.
    + destruct n as [| |m e]; try reflexivity. simpl. by destruct (m =? 0)%Z.
    + by rewrite (Hv s' eq_refl).
Qed.

End Extraction.

(** ** The further properties on the data of the source file *)

Lemma returned_result_shape_witness :
  let r := verdict "private" (arrSingle ++ arrExample) arrExample in
  networkPrefix r = JsString "private"
  ∧ ∃ l, addresses r = JsArray l
      ∧ (∀ a, a ∈ l → @decodes node a)
      ∧ invalidAddresses r `sublist_of` l
      ∧ (success r = true → invalidAddresses r = []).
Proof.
  apply (@returned_result_shape node (JsString "private") (JsArray (arrSingle ++ arrExample))).
  vm_compute. reflexivity.
Defined.

Lemma returned_invalid_exact_witness :
  let r := verdict "private" (arrSingle ++ arrExample) arrExample in
  ∃ l, addresses r = JsArray l
    ∧ invalidAddresses r = filter (λ a, @rejected node 64 a = true) l.
Proof.
  apply (@returned_invalid_exact node "private" 64 (JsArray (arrSingle ++ arrExample)));
    vm_compute; reflexivity.
Defined.

Lemma success_certifies_witness :
  ∃ name tag l,
    JsString "private" = JsString name ∧ getDecimalByNetwork name = Return tag
    ∧ addresses (verdict "private" arrSingle []) = JsArray l
    ∧ ∀ a, a ∈ l → ∃ bytes, @Base58_decode node a = Return bytes ∧ @WellFormed node tag bytes.
Proof.
  apply (@success_certifies node (JsString "private") (JsArray arrSingle));
    vm_compute; reflexivity.
Defined.

Lemma undecodable_stops_validation_witness :
  ∃ tag, getDecimalByNetwork "private" = Return tag
    ∧ @validateAddressesByNetwork node (JsString "private")
        (JsArray (arrSingle ++ JsString "0OIl" :: arrExample))
      = MkRun ((arrSingle ≫= @address_events node tag) ++ [Base58Decode (JsString "0OIl")])
              (Throw (Base58Unacceptable "0")).
Proof.
  apply (@undecodable_stops_validation node "private" arrSingle arrExample (JsString "0OIl")).
  - apply sample_network. vm_compute. reflexivity.
  - apply sample_decodes. repeat constructor; eexists; vm_compute; reflexivity.
  - vm_compute. reflexivity.
Defined.

Lemma validation_calls_witness :
  ∃ tag, getDecimalByNetwork "private" = Return tag
    ∧ trace (@validateAddressesByNetwork node (JsString "private")
               (JsArray (arrSingle ++ arrExample)))
      = (arrSingle ++ arrExample) ≫= @address_events node tag.
Proof.
  apply (@validation_calls node "private" (JsArray (arrSingle ++ arrExample))).
  - apply sample_network. vm_compute. reflexivity.
  - reflexivity.
  - discriminate.
  - apply sample_decodes. repeat constructor; eexists; vm_compute; reflexivity.
Defined.

Lemma calls_are_confined_witness :
  ∃ name tag l,
    JsString "private" = JsString name ∧ getDecimalByNetwork name = Return tag
    ∧ @normalizeAddresses node (JsArray arrSingle) = Return (JsArray l)
    ∧ length [64; 1; 180; 160; 213; 201; 189; 117; 64; 88; 116; 174; 131; 71; 132; 54; 87;
              148; 111; 132; 7; 241; 233; 74; 161; 39; 145; 110; 110; 167; 87; 76; 84;
              209]%Z = 34
    ∧ [64; 1; 180; 160; 213; 201; 189; 117; 64; 88; 116; 174; 131; 71; 132; 54; 87;
       148; 111; 132; 7; 241; 233; 74; 161; 39; 145; 110; 110; 167; 87; 76; 84;
       209]%Z !! 0 = Some tag.
Proof.
  apply (@calls_are_confined node (JsString "private") (JsArray arrSingle)
           (Blake2bHash [64; 1; 180; 160; 213; 201; 189; 117; 64; 88; 116; 174; 131; 71;
                         132; 54; 87; 148; 111; 132; 7; 241; 233; 74; 161; 39; 145; 110;
                         110; 167; 87; 76; 84; 209]%Z)).
  apply list_elem_of_In. vm_compute. right. right. left. reflexivity.
Defined.

Lemma falsy_addresses_rejected_witness :
  @validateAddressesByNetwork node (JsString "local") JsUndefined
  = MkRun [] (Return (rejection (JsString "local") "No addresses provided")).
Proof.
  apply (@falsy_addresses_rejected node "local" JsUndefined);
    [apply sample_network; vm_compute; reflexivity | reflexivity].
Defined.

Lemma nothing_to_validate_witness :
  @validateAddressesByNetwork node (JsString "local")
    (JsObject {["fee" := JsNumber (Finite 1 0)]})
  = MkRun [] (Return (rejection (JsString "local") "No addresses found")).
Proof.
  apply (@nothing_to_validate node "local" (JsObject {["fee" := JsNumber (Finite 1 0)]})).
  - apply sample_network. vm_compute. reflexivity.
  - reflexivity.
  - right. right. right. eexists. split; [reflexivity |].
    intros k Hk. apply list_elem_of_In in Hk.
    destruct Hk as [<-|[<-|[<-|[<-|[<-|[]]]]]]; vm_compute; reflexivity.
Defined.

Lemma validation_of_concatenation_witness :
  ∃ r1 r2 r,
    outcome (@validateAddressesByNetwork node (JsString "private") (JsArray arrSingle))
      = Return r1
    ∧ outcome (@validateAddressesByNetwork node (JsString "private") (JsArray arrExample))
      = Return r2
    ∧ outcome (@validateAddressesByNetwork node (JsString "private")
                 (JsArray (arrSingle ++ arrExample))) = Return r
    ∧ invalidAddresses r = invalidAddresses r1 ++ invalidAddresses r2
    ∧ success r = success r1 && success r2.
Proof.
  apply (@validation_of_concatenation node "private" arrSingle arrExample).
  - apply sample_network. vm_compute. reflexivity.
  - discriminate.
  - discriminate.
  - apply sample_decodes. repeat constructor; eexists; vm_compute; reflexivity.
  - apply sample_decodes. repeat constructor; eexists; vm_compute; reflexivity.
Defined.

Lemma validation_permutation_witness :
  ∃ r1 r2,
    outcome (@validateAddressesByNetwork node (JsString "private")
               (JsArray (arrSingle ++ arrExample))) = Return r1
    ∧ outcome (@validateAddressesByNetwork node (JsString "private")
                 (JsArray (arrExample ++ arrSingle))) = Return r2
    ∧ invalidAddresses r1 ≡ₚ invalidAddresses r2
    ∧ success r1 = success r2
    ∧ errorMsg r1 = errorMsg r2.
Proof.
  apply (@validation_permutation node "private" (arrSingle ++ arrExample)
           (arrExample ++ arrSingle)).
  - apply sample_network. vm_compute. reflexivity.
  - apply Permutation_app_comm.
  - discriminate.
  - apply sample_decodes. repeat constructor; eexists; vm_compute; reflexivity.
Defined.

Lemma networks_exclusive_witness :
  ∃ r2,
    outcome (@validateAddressesByNetwork node (JsString "local") (JsArray arrSingle))
      = Return r2
    ∧ invalidAddresses r2 = arrSingle
    ∧ JsString "AUAftQsaga8DjVfVvq7DK14fm5HvGEDdVLZwexZZvoP7oWkWCLoE" ∈ invalidAddresses r2
    ∧ success r2 = false.
Proof.
  apply (@networks_exclusive node "private" "local" arrSingle
           (JsString "AUAftQsaga8DjVfVvq7DK14fm5HvGEDdVLZwexZZvoP7oWkWCLoE")
           (verdict "private" arrSingle [])).
  - apply sample_network. vm_compute. reflexivity.
  - discriminate.
  - vm_compute. reflexivity.
  - reflexivity.
  - apply list_elem_of_In. left. reflexivity.
Defined.

Lemma tags_are_distinct_bytes_witness :
  (0 ≤ 64 < 256)%Z
  ∧ getHexByNetwork "private" = Return ("0x" +:+ hex_byte 64)
  ∧ (64%Z = 48%Z → "private" = "local").
Proof.
  apply (tags_are_distinct_bytes "private" "local" 64 48); vm_compute; reflexivity.
Defined.

Lemma string_field_throws_witness :
  @extractAddressesFromObj node
    (JsObject {["sender" := JsString "86tS2ExvjGEpS3Ntq5vZgHirUMuee7pJELGD8GmBoUyjXpAaAXTz"]})
  = Throw TypeError
  ∧ @validateAddressesByNetwork node (JsString "local")
      (JsObject {["sender" := JsString "86tS2ExvjGEpS3Ntq5vZgHirUMuee7pJELGD8GmBoUyjXpAaAXTz"]})
    = MkRun [] (Throw TypeError).
Proof.
  apply (@string_field_throws node _ [] []
           "86tS2ExvjGEpS3Ntq5vZgHirUMuee7pJELGD8GmBoUyjXpAaAXTz" "local").
  - discriminate.
  - right. left. split; [right; split; reflexivity | reflexivity].
  - apply sample_network. vm_compute. reflexivity.
Defined.

Lemma recipient_entries_are_indexed_witness :
  let props : gmap string JsValue :=
    {["recipients" :=
        JsArray [JsString "86tS2ExvjGEpS3Ntq5vZgHirUMuee7pJELGD8GmBoUyjXpAaAXTz"]]} in
  ([JsString "86tS2ExvjGEpS3Ntq5vZgHirUMuee7pJELGD8GmBoUyjXpAaAXTz"]
     = JsString <$> ["86tS2ExvjGEpS3Ntq5vZgHirUMuee7pJELGD8GmBoUyjXpAaAXTz"] →
   @extractAddressesFromObj node (JsObject props) =
     Return (JsArray (scalar_field props "changeAddress"
                      ++ scalar_field props "consolidationAdddress"
                      ++ (first_unit <$> ["86tS2ExvjGEpS3Ntq5vZgHirUMuee7pJELGD8GmBoUyjXpAaAXTz"])
                      ++ [] ++ [])))
  ∧ (JsNull ∈ [JsString "86tS2ExvjGEpS3Ntq5vZgHirUMuee7pJELGD8GmBoUyjXpAaAXTz"]
     ∨ JsUndefined ∈ [JsString "86tS2ExvjGEpS3Ntq5vZgHirUMuee7pJELGD8GmBoUyjXpAaAXTz"] →
     @extractAddressesFromObj node (JsObject props) = Throw TypeError).
Proof.
  apply (@recipient_entries_are_indexed node
           {["recipients" :=
               JsArray [JsString "86tS2ExvjGEpS3Ntq5vZgHirUMuee7pJELGD8GmBoUyjXpAaAXTz"]]}
           [JsString "86tS2ExvjGEpS3Ntq5vZgHirUMuee7pJELGD8GmBoUyjXpAaAXTz"]
           ["86tS2ExvjGEpS3Ntq5vZgHirUMuee7pJELGD8GmBoUyjXpAaAXTz"] [] []).
  - reflexivity.
  - right. split; reflexivity.
  - right. split; reflexivity.
Defined.

Lemma str2buf_of_valid_address_witness :
  (∃ bytes,
     @str2buf node (λ _ _, Throw LibraryError)
       (JsString "AUAftQsaga8DjVfVvq7DK14fm5HvGEDdVLZwexZZvoP7oWkWCLoE") JsUndefined
     = Return (Buffer bytes)
     ∧ length bytes = 38 ∧ bytes !! 0 = Some 64%Z)
  ∧ ∀ v enc, (∀ s', v = JsString s' → s' = EmptyString) →
      @str2buf node (λ _ _, Throw LibraryError) v enc = Return (Unchanged v).
Proof.
  apply (@str2buf_of_valid_address node (λ _ _, Throw LibraryError) "private"
           "AUAftQsaga8DjVfVvq7DK14fm5HvGEDdVLZwexZZvoP7oWkWCLoE" 64
           (verdict "private" arrSingle [])).
  - discriminate.
  - vm_compute. reflexivity.
  - vm_compute. reflexivity.
  - reflexivity.
Defined.

Lemma object_validates_as_its_extraction_witness :
  @validateAddressesByNetwork node (JsString "local") (JsObject paramObj)
  = @validateAddressesByNetwork node (JsString "local") (JsArray arrExample).
Proof.
  apply (@object_validates_as_its_extraction node (JsString "local") paramObj arrExample).
  vm_compute. reflexivity.
Defined.

Lemma verdict_is_per_address_witness :
  ∃ r r1,
    outcome (@validateAddressesByNetwork node (JsString "private")
               (JsArray (arrSingle ++ arrExample))) = Return r
    ∧ outcome (@validateAddressesByNetwork node (JsString "private")
                 (JsArray [JsString "86tS2ExvjGEpS3Ntq5vZgHirUMuee7pJELGD8GmBoUyjXpAaAXTz"]))
      = Return r1
    ∧ (JsString "86tS2ExvjGEpS3Ntq5vZgHirUMuee7pJELGD8GmBoUyjXpAaAXTz" ∈ invalidAddresses r
       ↔ success r1 = false).
Proof.
  apply (@verdict_is_per_address node "private" (arrSingle ++ arrExample)
           (JsString "86tS2ExvjGEpS3Ntq5vZgHirUMuee7pJELGD8GmBoUyjXpAaAXTz")).
  - apply sample_network. vm_compute. reflexivity.
  - apply list_elem_of_In. right. left. reflexivity.
  - apply sample_decodes. repeat constructor; eexists; vm_compute; reflexivity.
Defined.
